(** * Rental-application dossier generator: watermarking and assembly

    A shallow embedding of [generate_loc_file.py] (class [PDFWatermarker]
    and [process_folder]) and the properties of its overlay renderer,
    document-info extraction, table of contents, link-injection and
    bookmark-injection passes, of its watermarking loops, its sort and its
    concatenation, and of the assembly and the run as a whole.

    Python [float]s are IEEE-754 binary64 numbers and are modelled by Rocq's
    primitive floats, Python [int]s by [Z], Python [str] by [string]
    (file names and watermark texts are taken to be ASCII), the files on
    disk by a finite map from paths to parsed documents.  Exceptions and
    loops that may not terminate are modelled by the [outcome] monad. *)

From Stdlib Require Import ZArith Lia String Ascii List Bool.
From Stdlib Require Import Floats.PrimFloat Floats.FloatOps Floats.SpecFloat.
From Stdlib Require Import Numbers.Cyclic.Int63.Uint63.
From Stdlib Require Import DecimalString.
From Stdlib Require OrderedTypeEx.
From stdpp Require Import base option list gmap strings sorting.

#[local] Set Warnings "-inexact-float".
#[local] Open Scope string_scope.
#[local] Open Scope list_scope.
#[local] Open Scope Z_scope.

(** ** Outcomes of Python computations *)

Inductive exn : Set :=
| ZeroDivisionError
| IndexError
| ValueError
| OverflowError
| PdfReadError.

(** A computation returns a value, raises an exception, or is still running
    when its loop budget is used up. *)
Inductive outcome (A : Type) : Type :=
| Returns (a : A)
| Raises (e : exn)
| Diverges.

Arguments Returns {A} a.
Arguments Raises {A} e.
Arguments Diverges {A}.

#[global] Instance outcome_ret : MRet outcome := fun A a => Returns a.

#[global] Instance outcome_bind : MBind outcome := fun A B f m =>
  match m with
  | Returns a => f a
  | Raises e => Raises e
  | Diverges => Diverges
  end.

(** [while fuel cond body s] runs [while cond(s): s = body(s)] for at most
    [fuel] iterations. *)
Fixpoint while {S : Type} (fuel : nat) (cond : S -> bool)
    (body : S -> outcome S) (s : S) : outcome S :=
  if cond s then
    match fuel with
    | O => Diverges
    | Datatypes.S n => s' ← body s; while n cond body s'
    end
  else Returns s.

(** ** Python numbers *)

Module Py.

(** [float(z)] for an [int] below [2^63] in magnitude. *)
Definition float_of_Z (z : Z) : float :=
  if z <? 0 then PrimFloat.opp (PrimFloat.of_uint63 (Uint63.of_Z (- z)))
  else PrimFloat.of_uint63 (Uint63.of_Z z).

(** [a / b] on floats raises [ZeroDivisionError] on a zero divisor. *)
Definition truediv (a b : float) : outcome float :=
  if PrimFloat.eqb b 0%float then Raises ZeroDivisionError
  else Returns (a / b)%float.

(** [a > b] on floats. *)
Definition gt (a b : float) : bool := PrimFloat.ltb b a.

(** [int(x)]: truncation toward zero, an exception on infinities and NaN.
    Python tells the two apart ([OverflowError] on an infinity); the one
    call of [int], on a length computed from measured text widths, is
    given finite numbers by the font metrics, and both cases are reported
    as [ValueError] here. *)
Definition int (x : float) : outcome Z :=
  match Prim2SF x with
  | S754_zero _ => Returns 0
  | S754_finite s m e =>
      let v := if 0 <=? e then Z.pos m * 2 ^ e else Z.pos m / 2 ^ (- e) in
      Returns (if s then - v else v)
  | S754_infinity _ => Raises ValueError
  | S754_nan => Raises ValueError
  end.

(** [math.pi] and [math.radians]. *)
Definition pi : float := 3.141592653589793%float.
Definition radians (x : float) : float := (x * (pi / 180))%float.

(** [str(z)] for an [int]. *)
Definition str (z : Z) : string := NilZero.string_of_int (Z.to_int z).

(** [len(s)]. *)
Definition len (s : string) : Z := Z.of_nat (String.length s).

(** [s[:-k]]: all but the last [k] characters (empty when [s] is shorter). *)
Definition drop_last (k : nat) (s : string) : string :=
  substring 0 (String.length s - k) s.

(** [l[i]] on a list: negative indices count from the end. *)
Definition getitem {A : Type} (l : list A) (i : Z) : outcome A :=
  let n := Z.of_nat (length l) in
  let j := if i <? 0 then n + i else i in
  if (0 <=? j) && (j <? n) then
    match l !! Z.to_nat j with
    | Some a => Returns a
    | None => Raises IndexError
    end
  else Raises IndexError.

(** [c in s] for a one-character [c]. *)
Fixpoint contains (c : ascii) (s : string) : bool :=
  match s with
  | EmptyString => false
  | String d s' => Ascii.eqb c d || contains c s'
  end.

(** [s.split(c)[0]]: the part of [s] before the first [c], all of [s] when
    there is none. *)
Fixpoint split_first (c : ascii) (s : string) : string :=
  match s with
  | EmptyString => EmptyString
  | String d s' => if Ascii.eqb c d then EmptyString else String d (split_first c s')
  end.

(** [s.replace(old, new)]: every occurrence of [old], scanning from the left
    and without overlap.  [skip] counts the characters of a matched
    occurrence still to be passed over. *)
Fixpoint replace_from (old new : string) (skip : nat) (s : string) : string :=
  match s with
  | EmptyString => EmptyString
  | String c s' =>
      match skip with
      | S k => replace_from old new k s'
      | O =>
          if String.prefix old s
          then new +:+ replace_from old new (String.length old - 1) s'
          else String c (replace_from old new 0 s')
      end
  end.

(** With an empty [old], [new] is put before every character and at the end. *)
Fixpoint replace_empty (new s : string) : string :=
  match s with
  | EmptyString => new
  | String c s' => new +:+ String c (replace_empty new s')
  end.

Definition replace (old new s : string) : string :=
  match old with
  | EmptyString => replace_empty new s
  | _ => replace_from old new 0 s
  end.

(** ASCII letters and their case. *)
Definition is_upper (c : ascii) : bool :=
  let n := nat_of_ascii c in (65 <=? n)%nat && (n <=? 90)%nat.
Definition is_lower (c : ascii) : bool :=
  let n := nat_of_ascii c in (97 <=? n)%nat && (n <=? 122)%nat.
Definition is_cased (c : ascii) : bool := is_upper c || is_lower c.
Definition upper (c : ascii) : ascii :=
  if is_lower c then ascii_of_nat (nat_of_ascii c - 32) else c.
Definition lower (c : ascii) : ascii :=
  if is_upper c then ascii_of_nat (nat_of_ascii c + 32) else c.

(** [s.title()]: a letter that follows a letter is lower-cased, any other
    letter is upper-cased. *)
Fixpoint title_from (previous_is_cased : bool) (s : string) : string :=
  match s with
  | EmptyString => EmptyString
  | String c s' =>
      String (if previous_is_cased then lower c else upper c)
             (title_from (is_cased c) s')
  end.

Definition title (s : string) : string := title_from false s.

(** [s.rfind(c)]: the index of the last [c] in [s], if any. *)
Fixpoint rfind (c : ascii) (s : string) : option nat :=
  match s with
  | EmptyString => None
  | String d s' =>
      match rfind c s' with
      | Some i => Some (S i)
      | None => if Ascii.eqb c d then Some O else None
      end
  end.

(** [sorted(l, key=key)] on string keys: a stable insertion sort.  An
    element is put before the first element of the sorted rest whose key is
    not smaller than its own, so that elements with equal keys keep the
    order of the input. *)
Fixpoint insert_by {A : Type} (key : A -> string) (x : A) (l : list A) : list A :=
  match l with
  | [] => [x]
  | y :: l' =>
      if String.ltb (key y) (key x) then y :: insert_by key x l' else x :: l
  end.

Definition sorted_by {A : Type} (key : A -> string) (l : list A) : list A :=
  foldr (fun x acc => insert_by key x acc) [] l.

End Py.

(** ** Paths *)

Module Path.

(** A path is its string; [/] joins a directory and a file name. *)
Definition joinpath (dir file : string) : string := dir +:+ "/" +:+ file.

(** [path.name]: the final component. *)
Definition name (path : string) : string :=
  match Py.rfind "/" path with
  | Some i => substring (S i) (String.length path - S i) path
  | None => path
  end.

(** [path.stem]: the final component without its last suffix. *)
Definition stem (path : string) : string :=
  let n := name path in
  match Py.rfind "." n with
  | Some i =>
      if (0 <? i)%nat && (i <? String.length n - 1)%nat
      then substring 0 i n else n
  | None => n
  end.

(** [path.parent]. *)
Definition parent (path : string) : string :=
  match Py.rfind "/" path with
  | Some i => substring 0 i path
  | None => "."
  end.

End Path.

(** ** Fonts and text measurement *)

Inductive Font : Set := Helvetica | HelveticaBold.

(** Widths, in thousandths of the font size, of the Helvetica-Bold glyphs of
    the upper-case letters, the space and the full stop (Adobe font metrics).
    The watermark texts of the examples use only these glyphs; every other
    glyph is given the width of a digit. *)
Definition glyph_width (c : ascii) : Z :=
  match c with
  | " "%char | "."%char | "I"%char => 278
  | "J"%char => 556
  | "F"%char | "L"%char | "T"%char | "Z"%char => 611
  | "E"%char | "P"%char | "S"%char | "V"%char | "X"%char | "Y"%char => 667
  | "A"%char | "B"%char | "C"%char | "D"%char | "H"%char | "K"%char
  | "N"%char | "R"%char | "U"%char => 722
  | "G"%char | "O"%char | "Q"%char => 778
  | "M"%char => 833
  | "W"%char => 944
  | _ => 556
  end.

Fixpoint glyph_sum (s : string) : Z :=
  match s with
  | EmptyString => 0
  | String c s' => glyph_width c + glyph_sum s'
  end.

(** The measurement of the drawing library for a standard font:
    [sum(widths) * 0.001 * size].  The examples use it for both faces. *)
Definition afm_stringWidth (s : string) (f : Font) (size : Z) : float :=
  (Py.float_of_Z (glyph_sum s) * 0.001 * Py.float_of_Z size)%float.

(** The cosine and sine of the C library at [radians(30)], the only angle
    the program asks for. *)
Definition libm_cos (x : float) : float := 0.8660254037844387%float.
Definition libm_sin (x : float) : float := 0.49999999999999994%float.

(** ** Pages and documents *)

Inductive Color : Set := black | blue | red (alpha : float).

(** One [drawString] with the graphics state it is drawn in. *)
Record TextRun : Set := mkTextRun {
  tr_font : Font;
  tr_size : Z;
  tr_fill : Color;
  tr_translate : float * float;
  tr_rotate : Z;
  tr_pos : float * float;
  tr_text : string
}.

Inductive Drawing : Set :=
| SourceStream (id : N)       (* a content stream of an input document *)
| DrawString (t : TextRun).

Record LinkAnnotation : Set := mkLink {
  link_rect : float * float * float * float;
  link_target_page_index : Z
}.

Record PageObject : Set := mkPage {
  mediabox : float * float;          (* width, height *)
  contents : list Drawing;
  annotations : list LinkAnnotation
}.

(** [page.merge_page(page2)]: the content and annotations of [page2] are
    appended, the page keeps its own boxes. *)
Definition merge_page (page page2 : PageObject) : PageObject :=
  {| mediabox := mediabox page;
     contents := contents page ++ contents page2;
     annotations := annotations page ++ annotations page2 |}.

(** An entry of the outline (bookmark) tree; [ol_parent] is the reference
    returned when the parent entry was added, [None] for a top-level entry. *)
Record OutlineItem : Set := mkOutline {
  ol_title : string;
  ol_page : Z;
  ol_parent : option nat
}.

(** A parsed PDF file.  A page slot is [None] when taking that page out of
    [reader.pages] raises (a corrupt page object): every loop over the pages
    stops there.  The box of a page that can be taken out is a pair of
    floats, which may be zero, infinite or NaN. *)
Record Document : Set := mkDocument {
  pages : list (option PageObject);
  outline : list OutlineItem
}.

Inductive File : Set :=
| Garbage                     (* not a readable PDF *)
| Pdf (doc : Document).

(** The documents being assembled by a [PdfWriter]. *)
Record PdfWriter : Set := mkWriter {
  w_pages : list PageObject;
  w_outline : list OutlineItem
}.

Definition empty_writer : PdfWriter := {| w_pages := []; w_outline := [] |}.

(** [PdfReader(path)]. *)
Definition PdfReader (fs : gmap string File) (path : string) : outcome Document :=
  match fs !! path with
  | Some (Pdf doc) => Returns doc
  | _ => Raises PdfReadError
  end.

(** Taking a page out of [reader.pages]. *)
Definition read_page (slot : option PageObject) : outcome PageObject :=
  match slot with
  | Some page => Returns page
  | None => Raises PdfReadError
  end.

(** [with open(path, 'wb') as f: writer.write(f)].  The files are a map with
    no notion of an unwritable path: opening and writing succeed. *)
Definition write (fs : gmap string File) (path : string) (writer : PdfWriter)
    : gmap string File :=
  <[path := Pdf {| pages := Some <$> w_pages writer;
                   outline := w_outline writer |}]> fs.

(** [writer.add_page(page)]. *)
Definition add_page (writer : PdfWriter) (page : PageObject) : PdfWriter :=
  {| w_pages := w_pages writer ++ [page]; w_outline := w_outline writer |}.

(** [for page in reader.pages: writer.add_page(page)]. *)
Fixpoint add_pages (writer : PdfWriter) (slots : list (option PageObject))
    : outcome PdfWriter :=
  match slots with
  | [] => Returns writer
  | slot :: rest => page ← read_page slot; add_pages (add_page writer page) rest
  end.

(** The canvas formats each number it puts into the page; formatting raises
    [OverflowError] on an infinity and [ValueError] on a NaN. *)
Definition fp_str (x : float) : outcome unit :=
  match Prim2SF x with
  | S754_infinity _ => Raises OverflowError
  | S754_nan => Raises ValueError
  | _ => Returns tt
  end.

(** [can.translate(dx, dy)]: the two numbers are formatted in this order. *)
Definition canvas_translate (dx dy : float) : outcome unit :=
  _ ← fp_str dx; fp_str dy.

(** [for x in l: ...], collecting what each iteration draws. *)
Fixpoint for_each {A B : Type} (body : A -> outcome B) (l : list A)
    : outcome (list B) :=
  match l with
  | [] => Returns []
  | x :: rest => b ← body x; bs ← for_each body rest; mret (b :: bs)
  end.

(** [try: body except Exception: handler]. *)
Definition try_except {A : Type} (body : outcome A) (handler : exn -> outcome A)
    : outcome A :=
  match body with
  | Raises e => handler e
  | _ => body
  end.

(** An entry of [document_info]. *)
Record DocumentInfo : Set := mkInfo {
  folder : string;
  document : string;
  page : Z;
  num_pages : Z
}.

(** An entry of [self._toc_links]. *)
Record TocLink : Set := mkTocLink {
  rect : float * float * float * float;
  target_page : Z;
  toc_page : Z
}.

(** ** The watermarker: class [PDFWatermarker] and [process_folder]

    The section variables are the text measurement of the drawing library,
    the cosine and sine of the C library, and the two fields of the
    watermarker that never change.  Logging, and the flag that makes the
    renderer log only once, do not influence any returned value and are left
    out. *)

Section Watermarker.

#[local] Set Default Proof Using "Type".

Variable stringWidth : string -> Font -> Z -> float.
Variables math_cos math_sin : float -> float.
Variable watermark_text : string.
Variable opacity : float.

Definition max_font_size : Z := 24.
Definition min_font_size : Z := 8.
Definition rotation_angle : Z := 30.
Definition rotation_rad : float := Py.radians (Py.float_of_Z rotation_angle).
Definition margin_factor : float := 0.1%float.

Definition usable_width (width : float) : float :=
  (width * (1 - 2 * margin_factor))%float.

Definition rotation_width_factor (width : float) : outcome float :=
  r ← Py.truediv (Py.float_of_Z max_font_size) width;
  mret (PrimFloat.abs (math_cos rotation_rad)
        + PrimFloat.abs (math_sin rotation_rad) * r)%float.

Definition max_allowed_width (width : float) : outcome float :=
  f ← rotation_width_factor width;
  Py.truediv (usable_width width) f.

(** The font-size search: state [(font_size, text_width)]. *)
Definition scale_cond (maxw : float) (s : Z * float) : bool :=
  Py.gt (snd s) maxw && (min_font_size <? fst s).

Definition scale_body (s : Z * float) : outcome (Z * float) :=
  let font_size := fst s - 1 in
  Returns (font_size, stringWidth watermark_text HelveticaBold font_size).

Definition scale_down (fuel : nat) (maxw : float) : outcome (Z * float) :=
  while fuel (scale_cond maxw) scale_body
    (max_font_size, stringWidth watermark_text HelveticaBold max_font_size).

(** One truncation step: [truncated_text[:-3] + "..."]. *)
Definition truncate_step (t : string) : string := Py.drop_last 3 t +:+ "...".

(** The truncation loop: state [(truncated_text, text_width)]. *)
Definition truncate_cond (maxw : float) (s : string * float) : bool :=
  Py.gt (snd s) maxw && (10 <? Py.len (fst s)).

Definition truncate_body (font_size : Z) (s : string * float)
    : outcome (string * float) :=
  let truncated_text := truncate_step (fst s) in
  Returns (truncated_text, stringWidth truncated_text HelveticaBold font_size).

Definition truncate (fuel : nat) (maxw : float) (font_size : Z)
    (text_width : float) : outcome (string * float) :=
  while fuel (truncate_cond maxw) (truncate_body font_size)
    (watermark_text, text_width).

(** Font size, text and measured width the overlay is drawn with. *)
Definition fit_text (fuel : nat) (width : float)
    : outcome (Z * string * float) :=
  maxw ← max_allowed_width width;
  '(font_size, text_width) ← scale_down fuel maxw;
  if Py.gt text_width maxw then
    '(truncated_text, text_width') ← truncate fuel maxw font_size text_width;
    mret (font_size, truncated_text, text_width')
  else mret (font_size, watermark_text, text_width).

Definition y_positions (height : float) : list float :=
  [height * 0.2; height * 0.4; height * 0.6; height * 0.8]%float.

(** The one-page overlay document; [pages[0]] of the result is the page.
    A stamp whose translation is not a finite number makes the canvas
    raise.  The opacity is taken to be one that the canvas accepts for the
    fill colour, a number from 0 to 1 such as the default 0.3. *)
Definition create_watermark_pdf (fuel : nat) (width height : float)
    : outcome PageObject :=
  '(font_size, text, text_width) ← fit_text fuel width;
  let text_height := Py.float_of_Z font_size in
  let center_x := (width / 2)%float in
  let text_center_offset_x := (text_width / 2)%float in
  let text_center_offset_y := (text_height / 2)%float in
  let rotated_offset_x :=
    (text_center_offset_x * math_cos rotation_rad
     - text_center_offset_y * math_sin rotation_rad)%float in
  let rotated_offset_y :=
    (text_center_offset_x * math_sin rotation_rad
     + text_center_offset_y * math_cos rotation_rad)%float in
  let translate_x := (center_x - rotated_offset_x)%float in
  let stamp (y : float) : outcome Drawing :=
    let translate_y := (y - rotated_offset_y)%float in
    _ ← canvas_translate translate_x translate_y;
    mret (DrawString {| tr_font := HelveticaBold; tr_size := font_size;
                        tr_fill := red opacity;
                        tr_translate := (translate_x, translate_y);
                        tr_rotate := rotation_angle;
                        tr_pos := (0, 0)%float; tr_text := text |}) in
  stamps ← for_each stamp (y_positions height);
  mret {| mediabox := (width, height);
          contents := stamps;
          annotations := [] |}.


(** *** [watermark_pdf] *)

(** The body of the page loop: the overlay is rendered at the page's own
    size and merged onto the page. *)
Definition watermark_page (fuel : nat) (page : PageObject) : outcome PageObject :=
  let page_box := mediabox page in
  let page_width := fst page_box in
  let page_height := snd page_box in
  watermark_page ← create_watermark_pdf fuel page_width page_height;
  mret (merge_page page watermark_page).

Fixpoint watermark_pages (fuel : nat) (writer : PdfWriter)
    (slots : list (option PageObject)) : outcome PdfWriter :=
  match slots with
  | [] => Returns writer
  | slot :: rest =>
      page ← read_page slot;
      page' ← watermark_page fuel page;
      watermark_pages fuel (add_page writer page') rest
  end.

(** Returns [True] or [False] and the files as they are afterwards. *)
Definition watermark_pdf (fuel : nat) (fs : gmap string File)
    (input_path output_path : string) : outcome (bool * gmap string File) :=
  try_except
    (reader ← PdfReader fs input_path;
     writer ← watermark_pages fuel empty_writer (pages reader);
     mret (true, write fs output_path writer))
    (fun _ => Returns (false, fs)).

(** *** The watermarking loops of [process_folder] *)

Definition exclude_folders : list string :=
  ["Dossier Location"; "protected_files"; "temp_watermarked"].

(** One PDF file of a folder; the state is the files on disk and
    [watermarked_pdfs]. *)
Definition process_file (fuel : nat) (temp_dir folder_name : string)
    (st : gmap string File * list string) (pdf_file : string)
    : outcome (gmap string File * list string) :=
  let '(fs, watermarked_pdfs) := st in
  let output_filename :=
    folder_name +:+ "_" +:+ Path.stem pdf_file +:+ "_watermarked.pdf" in
  let output_path := Path.joinpath temp_dir output_filename in
  if bool_decide (output_path ∈ watermarked_pdfs) then Returns st
  else
    '(ok, fs') ← watermark_pdf fuel fs pdf_file output_path;
    mret (fs', if ok : bool then watermarked_pdfs ++ [output_path]
               else watermarked_pdfs).

Fixpoint process_files (fuel : nat) (temp_dir folder_name : string)
    (st : gmap string File * list string) (pdf_files : list string)
    : outcome (gmap string File * list string) :=
  match pdf_files with
  | [] => Returns st
  | pdf_file :: rest =>
      st' ← process_file fuel temp_dir folder_name st pdf_file;
      process_files fuel temp_dir folder_name st' rest
  end.

(** The sub-folders are given with the PDF files found in each. *)
Fixpoint process_folders (fuel : nat) (temp_dir : string)
    (st : gmap string File * list string)
    (folders : list (string * list string))
    : outcome (gmap string File * list string) :=
  match folders with
  | [] => Returns st
  | (folder_name, pdf_files) :: rest =>
      if bool_decide (folder_name ∈ exclude_folders)
      then process_folders fuel temp_dir st rest
      else
        st' ← process_files fuel temp_dir folder_name st pdf_files;
        process_folders fuel temp_dir st' rest
  end.

(** *** Document information: the first loop of [combine_pdfs_with_toc] *)

(** [pdf_path.name.split('_')[0]]. *)
Definition folder_name_of (pdf_path : string) : string :=
  Py.split_first "_" (Path.name pdf_path).

(** The display name computed from the file name. *)
Definition document_name_of (pdf_path : string) : string :=
  let folder_name := folder_name_of pdf_path in
  let filename := Path.stem pdf_path in
  let clean_name :=
    Py.replace "_watermarked" "" (Py.replace (folder_name +:+ "_") "" filename) in
  let doc_name :=
    if Py.contains "-" clean_name then Py.split_first "-" clean_name
    else clean_name in
  Py.title (Py.replace "_" " " doc_name).

Definition estimated_toc_pages (pdf_paths : list string) : Z :=
  let total_docs := Z.of_nat (length pdf_paths) in
  Z.max 1 ((total_docs * 2) `div` 40).

(** The page the first document is expected on. *)
Definition first_document_page (pdf_paths : list string) : Z :=
  let current_page := 1 in
  let current_page := current_page + 1 in
  current_page + estimated_toc_pages pdf_paths.

(** One document; the state is [document_info] and [current_page].  A
    document that cannot be read is logged and skipped. *)
Definition analyze_document (fs : gmap string File)
    (st : list DocumentInfo * Z) (pdf_path : string) : list DocumentInfo * Z :=
  let '(document_info, current_page) := st in
  match PdfReader fs pdf_path with
  | Returns reader =>
      let n := Z.of_nat (length (pages reader)) in
      (document_info ++ [{| folder := folder_name_of pdf_path;
                            document := document_name_of pdf_path;
                            page := current_page;
                            num_pages := n |}],
       current_page + n)
  | _ => st
  end.

Definition analyze_documents (fs : gmap string File) (pdf_paths : list string)
    : list DocumentInfo * Z :=
  foldl (analyze_document fs) ([], first_document_page pdf_paths) pdf_paths.

(** *** Title page and table of contents *)

Definition mm : float := (72 / 2.54 * 0.1)%float.
Definition A4 : float * float := (210 * mm, 297 * mm)%float.

(** A [drawString] with no transformation in force. *)
Definition draw (font : Font) (size : Z) (fill : Color) (x y : float)
    (text : string) : Drawing :=
  DrawString {| tr_font := font; tr_size := size; tr_fill := fill;
                tr_translate := (0, 0)%float; tr_rotate := 0;
                tr_pos := (x, y); tr_text := text |}.

Definition canvas_page (code : list Drawing) : PageObject :=
  {| mediabox := A4; contents := code; annotations := [] |}.

(** The date of the run, as [strftime('%d/%m/%Y')] prints it. *)
Variable today : string.

Definition create_title_page (fs : gmap string File) (title_text : string)
    (output_path : string) : gmap string File :=
  let '(width, height) := A4 in
  let title_width := stringWidth title_text HelveticaBold 24 in
  let date_text := "Généré le " +:+ today in
  let date_width := stringWidth date_text Helvetica 12 in
  write fs output_path
    {| w_pages :=
         [canvas_page
            [draw HelveticaBold 24 black ((width - title_width) / 2)%float
               (height * 0.7)%float title_text;
             draw Helvetica 12 black ((width - date_width) / 2)%float
               (height * 0.3)%float date_text]];
       w_outline := [] |}.

(** The state of the loop of [create_table_of_contents]: the pages closed
    by [showPage], the drawings of the page being drawn, and the variables
    of the function. *)
Record TocState : Set := mkTocState {
  can_pages : list PageObject;
  can_code : list Drawing;
  y_position : float;
  page_num : Z;
  current_person : option string;
  toc_links : list TocLink
}.

(** The header drawn when the folder differs from the one before. *)
Definition toc_header (st : TocState) (folder_name : string) : TocState :=
  if bool_decide (current_person st ≠ Some folder_name) then
    let y := (y_position st - 20)%float in
    {| can_pages := can_pages st;
       can_code := can_code st ++ [draw HelveticaBold 14 black 50 y folder_name];
       y_position := (y - 25)%float;
       page_num := page_num st;
       current_person := Some folder_name;
       toc_links := toc_links st |}
  else st.

Fixpoint repeat_string (n : nat) (s : string) : string :=
  match n with
  | O => EmptyString
  | S n' => s +:+ repeat_string n' s
  end.

Definition toc_entry (st : TocState) (info : DocumentInfo) : outcome TocState :=
  let '(width, height) := A4 in
  let folder_name := folder info in
  let doc_name := document info in
  let target_page := page info in
  let st := toc_header st folder_name in
  let y := y_position st in
  let doc_text := "    " +:+ doc_name in
  let page_text := "page " +:+ Py.str target_page in
  let doc_width := stringWidth doc_text Helvetica 11 in
  let page_width := stringWidth page_text Helvetica 11 in
  let dots_start := (50 + doc_width + 10)%float in
  let dots_end := (width - 50 - page_width - 10)%float in
  let dots_length := (dots_end - dots_start)%float in
  num_dots ← Py.int (dots_length / 4)%float;
  let dot_text := repeat_string (Z.to_nat (Z.max 0 num_dots)) "." in
  let code :=
    can_code st ++
    [draw Helvetica 11 blue 50 y doc_text;
     draw Helvetica 11 black dots_start y dot_text;
     draw Helvetica 11 blue (width - 50 - page_width)%float y page_text] in
  let links :=
    toc_links st ++
    [{| rect := (50, y - 2, width - 50, y + 13)%float;
        target_page := target_page;
        toc_page := page_num st |}] in
  let y := (y - 18)%float in
  if (y <? 100)%float then
    mret {| can_pages := can_pages st ++ [canvas_page code];
            can_code := [];
            y_position := (height - 50)%float;
            page_num := page_num st + 1;
            current_person := current_person st;
            toc_links := links |}
  else
    mret {| can_pages := can_pages st;
            can_code := code;
            y_position := y;
            page_num := page_num st;
            current_person := current_person st;
            toc_links := links |}.

Fixpoint toc_entries (st : TocState) (document_info : list DocumentInfo)
    : outcome TocState :=
  match document_info with
  | [] => Returns st
  | info :: rest => st' ← toc_entry st info; toc_entries st' rest
  end.

Definition toc_start : TocState :=
  let '(width, height) := A4 in
  let y_position := (height - 50)%float in
  let title := "Table des Matières" in
  let title_width := stringWidth title HelveticaBold 18 in
  {| can_pages := [];
     can_code := [draw HelveticaBold 18 black ((width - title_width) / 2)%float
                    y_position title];
     y_position := (y_position - 40)%float;
     page_num := 0;
     current_person := None;
     toc_links := [] |}.

(** [can.save()]: a page with drawings on it is closed first. *)
Definition canvas_save (st : TocState) : list PageObject :=
  match can_code st with
  | [] => can_pages st
  | code => can_pages st ++ [canvas_page code]
  end.

(** Returns the files, [self._toc_links] and [self._toc_pages]. *)
Definition create_table_of_contents (fs : gmap string File)
    (document_info : list DocumentInfo) (output_path : string)
    : outcome (gmap string File * list TocLink * Z) :=
  st ← toc_entries toc_start document_info;
  mret (write fs output_path {| w_pages := canvas_save st; w_outline := [] |},
        toc_links st, page_num st + 1).

(** *** The link-injection pass: [add_links_to_pdf] *)

(** Whether the PDF library raises when asked to build the link [a] and
    attach it to page [page_number]. *)
Variable annotation_error : Z -> LinkAnnotation -> bool.

(** The rectangle with its y-axis flipped on a page of height [page_height]. *)
Definition pdf_rect (page_height : float)
    (rect : float * float * float * float) : float * float * float * float :=
  let '(x1, y1, x2, y2) := rect in
  (x1, page_height - y2, x2, page_height - y1)%float.

Definition annotate (a : LinkAnnotation) (page : PageObject) : PageObject :=
  {| mediabox := mediabox page;
     contents := contents page;
     annotations := annotations page ++ [a] |}.

(** [writer.add_annotation(page_number=..., annotation=...)]. *)
Definition add_annotation (writer : PdfWriter) (page_number : Z)
    (a : LinkAnnotation) : outcome PdfWriter :=
  if annotation_error page_number a then Raises ValueError
  else
    let n := Z.of_nat (length (w_pages writer)) in
    let j := if page_number <? 0 then n + page_number else page_number in
    if (0 <=? j) && (j <? n) then
      mret {| w_pages := alter (annotate a) (Z.to_nat j) (w_pages writer);
              w_outline := w_outline writer |}
    else Raises IndexError.

(** The body of the loop over [self._toc_links]. *)
Definition add_link (writer : PdfWriter) (link_info : TocLink)
    : outcome PdfWriter :=
  let toc_page_idx := 1 + toc_page link_info in
  let target_page_idx := target_page link_info - 1 in
  let n := Z.of_nat (length (w_pages writer)) in
  if (target_page_idx <? n) && (toc_page_idx <? n) then
    toc_page_object ← Py.getitem (w_pages writer) toc_page_idx;
    let page_height := snd (mediabox toc_page_object) in
    let annotation :=
      {| link_rect := pdf_rect page_height (rect link_info);
         link_target_page_index := target_page_idx |} in
    try_except (add_annotation writer toc_page_idx annotation)
               (fun _ => Returns writer)
  else Returns writer.

Fixpoint add_links (writer : PdfWriter) (links : list TocLink)
    : outcome PdfWriter :=
  match links with
  | [] => Returns writer
  | link_info :: rest => writer' ← add_link writer link_info; add_links writer' rest
  end.

(** [self_toc_links] is the attribute [_toc_links], [None] when the
    watermarker has none.  The function returns [True] whenever it returns. *)
Definition add_links_to_pdf (self_toc_links : option (list TocLink))
    (fs : gmap string File) (pdf_path output_path : string)
    : outcome (gmap string File) :=
  reader ← PdfReader fs pdf_path;
  writer ← add_pages empty_writer (pages reader);
  writer ← match self_toc_links with
           | Some (link_info :: rest) => add_links writer (link_info :: rest)
           | _ => Returns writer
           end;
  mret (write fs output_path writer).

(** *** The bookmark-injection pass: [add_bookmarks_to_pdf] *)

(** [writer.add_outline_item(title, page_number, parent)] returns the
    reference of the new entry. *)
Definition add_outline_item (writer : PdfWriter) (title : string)
    (page_number : Z) (parent : option nat) : PdfWriter * nat :=
  ({| w_pages := w_pages writer;
      w_outline := w_outline writer ++
        [{| ol_title := title; ol_page := page_number; ol_parent := parent |}] |},
   length (w_outline writer)).

(** The body of the loop; the state is the writer, [current_person] and
    [person_bookmark]. *)
Definition bookmark_entry (st : PdfWriter * option string * option nat)
    (info : DocumentInfo) : PdfWriter * option string * option nat :=
  let '(writer, current_person, person_bookmark) := st in
  let folder_name := folder info in
  let doc_name := document info in
  let page_num := page info - 1 in
  let '(writer, current_person, person_bookmark) :=
    if bool_decide (current_person ≠ Some folder_name) then
      let '(writer, ref) := add_outline_item writer folder_name page_num None in
      (writer, Some folder_name, Some ref)
    else (writer, current_person, person_bookmark) in
  match person_bookmark with
  | Some parent =>
      (fst (add_outline_item writer doc_name page_num (Some parent)),
       current_person, person_bookmark)
  | None => (writer, current_person, person_bookmark)
  end.

(** The two fixed entries and the loop over [document_info]. *)
Definition add_bookmarks (writer : PdfWriter) (document_info : list DocumentInfo)
    : PdfWriter :=
  let '(writer, title_bookmark) := add_outline_item writer "Page de Titre" 0 None in
  let '(writer, toc_bookmark) :=
    add_outline_item writer "Table des Matières" 1 None in
  let '(writer, _, _) := foldl bookmark_entry (writer, None, None) document_info in
  writer.

Definition add_bookmarks_to_pdf (fs : gmap string File) (pdf_path : string)
    (document_info : list DocumentInfo) (output_path : string)
    : outcome (gmap string File) :=
  reader ← PdfReader fs pdf_path;
  writer ← add_pages empty_writer (pages reader);
  mret (write fs output_path (add_bookmarks writer document_info)).

(** *** Assembly: [combine_pdfs_with_toc] *)

(** Inside [try: ... except], the pages added before the first one that
    raises stay in the writer. *)
Fixpoint add_readable_pages (writer : PdfWriter)
    (slots : list (option PageObject)) : PdfWriter :=
  match slots with
  | Some page :: rest => add_readable_pages (add_page writer page) rest
  | _ => writer
  end.

Definition try_add_document (fs : gmap string File) (writer : PdfWriter)
    (pdf_path : string) : PdfWriter :=
  match PdfReader fs pdf_path with
  | Returns reader => add_readable_pages writer (pages reader)
  | _ => writer
  end.

(** The concatenation pass: title page, table of contents, documents. *)
Definition concatenate (fs : gmap string File)
    (title_temp toc_temp : string) (pdf_paths : list string) : PdfWriter :=
  let writer := try_add_document fs empty_writer title_temp in
  let writer := try_add_document fs writer toc_temp in
  foldl (try_add_document fs) writer pdf_paths.

Definition combine_pdfs_with_toc (fs : gmap string File)
    (pdf_paths : list string) (output_path title_text : string)
    : outcome (bool * gmap string File) :=
  let document_info := fst (analyze_documents fs pdf_paths) in
  let dir := Path.parent output_path in
  let title_temp := Path.joinpath dir "temp_title.pdf" in
  let fs := create_title_page fs title_text title_temp in
  let toc_temp := Path.joinpath dir "temp_toc.pdf" in
  '(fs, self_toc_links, _) ← create_table_of_contents fs document_info toc_temp;
  let writer := concatenate fs title_temp toc_temp pdf_paths in
  let temp_combined := Path.joinpath dir "temp_combined.pdf" in
  let fs := write fs temp_combined writer in
  let clean_up (fs : gmap string File) :=
    delete temp_combined (delete toc_temp (delete title_temp fs)) in
  match self_toc_links with
  | _ :: _ =>
      let temp_with_links := Path.joinpath dir "temp_with_links.pdf" in
      try_except
        (fs ← add_links_to_pdf (Some self_toc_links) fs temp_combined
                temp_with_links;
         try_except
           (fs ← add_bookmarks_to_pdf fs temp_with_links document_info
                   output_path;
            mret (true, clean_up (delete temp_with_links fs)))
           (fun _ => Returns (false, fs)))
        (fun _ => Returns (false, fs))
  | [] =>
      try_except
        (fs ← add_bookmarks_to_pdf fs temp_combined document_info output_path;
         mret (true, clean_up fs))
        (fun _ => Returns (false, fs))
  end.

(** *** [process_folder] *)

(** The order-preserving removal of duplicates. *)
Fixpoint unique_from (seen l : list string) : list string :=
  match l with
  | [] => []
  | x :: rest =>
      if bool_decide (x ∈ seen) then unique_from seen rest
      else x :: unique_from (x :: seen) rest
  end.

(** [folders] lists the sub-folders of the source folder with the PDF files
    found in each.  A result that is not [True] is given as [false]. *)
Definition process_folder (fuel : nat) (fs : gmap string File)
    (source_path : string) (folders : list (string * list string))
    (title_text : string) : outcome (bool * gmap string File) :=
  let temp_dir := Path.joinpath source_path "temp_watermarked" in
  '(fs, watermarked_pdfs) ← process_folders fuel temp_dir (fs, []) folders;
  match watermarked_pdfs with
  | _ :: _ =>
      let unique_watermarked_pdfs :=
        Py.sorted_by Path.name (unique_from [] watermarked_pdfs) in
      let combined_output :=
        Path.joinpath source_path
          ("Dossier_Location_Complete_" +:+ Py.replace " " "_" watermark_text
           +:+ ".pdf") in
      '(ok, fs) ← combine_pdfs_with_toc fs unique_watermarked_pdfs
                    combined_output title_text;
      if ok : bool
      then mret (true, foldr (fun temp_file fs => delete temp_file fs) fs
                         unique_watermarked_pdfs)
      else mret (false, fs)
  | [] => mret (false, fs)
  end.

(** ** Vocabulary of the properties *)

(** [s] ends with [suffix]. *)
Definition ends_with (suffix s : string) : Prop :=
  exists p : string, s = p +:+ suffix.

(** Reading or processing the page in [slot] raises. *)
Definition page_raises (fuel : nat) (slot : option PageObject) : Prop :=
  slot = None \/
  exists (p : PageObject) (e : exn),
    slot = Some p /\ watermark_page fuel p = Raises e.

(** The entries the analysis loop adds from [current_page] on, by recursion
    on the paths. *)
Fixpoint entries_from (fs : gmap string File) (current_page : Z)
    (pdf_paths : list string) : list DocumentInfo :=
  match pdf_paths with
  | [] => []
  | pdf_path :: rest =>
      match PdfReader fs pdf_path with
      | Returns reader =>
          let n := Z.of_nat (length (pages reader)) in
          {| folder := folder_name_of pdf_path;
             document := document_name_of pdf_path;
             page := current_page;
             num_pages := n |} :: entries_from fs (current_page + n) rest
      | _ => entries_from fs current_page rest
      end
  end.

(** Whether [PdfReader] opens the file. *)
Definition readable (fs : gmap string File) (pdf_path : string) : bool :=
  match fs !! pdf_path with
  | Some (Pdf _) => true
  | _ => false
  end.

(** [s] without its prefix [prefix], if it has it. *)
Definition strip_prefix (prefix s : string) : string :=
  if String.prefix prefix s
  then substring (String.length prefix)
                 (String.length s - String.length prefix) s
  else s.

(** [s] without its suffix [suffix], if it has it. *)
Definition strip_suffix (suffix s : string) : string :=
  let k := (String.length s - String.length suffix)%nat in
  if (String.length suffix <=? String.length s)%nat
     && String.eqb (substring k (String.length suffix) s) suffix
  then substring 0 k s
  else s.

(** The display name as the naming convention of the intermediate files
    describes it: the [<group>_] prefix and the [_watermarked] suffix are
    taken off the stem, the rest is cut at the first [-], underscores become
    spaces and the result is title-cased. *)
Definition display_name_by_convention (pdf_path : string) : string :=
  let group := Py.split_first "_" (Path.name pdf_path) in
  let core :=
    strip_suffix "_watermarked" (strip_prefix (group +:+ "_") (Path.stem pdf_path)) in
  Py.title (Py.replace "_" " " (Py.split_first "-" core)).

(** Whether entry [i] begins a group: it is the first entry, or its group
    label differs from the label of the entry just before it. *)
Definition starts_run (document_info : list DocumentInfo) (i : nat) : bool :=
  match i with
  | O => true
  | S j =>
      bool_decide (folder <$> document_info !! j ≠ folder <$> document_info !! i)
  end.

(** The entries that begin a group, in order. *)
Definition run_starts (document_info : list DocumentInfo) : list DocumentInfo :=
  mjoin (imap (fun i info =>
                 if starts_run document_info i then [info] else [])
              document_info).

(** The maximal runs of equal consecutive labels, each with its length. *)
Fixpoint runs (labels : list string) : list (string * nat) :=
  match labels with
  | [] => []
  | x :: rest =>
      match runs rest with
      | (y, k) :: more =>
          if bool_decide (x = y) then (y, S k) :: more
          else (x, 1%nat) :: (y, k) :: more
      | [] => [(x, 1%nat)]
      end
  end.

(** The top-level entries of an outline. *)
Definition top_level (outline : list OutlineItem) : list OutlineItem :=
  filter (fun item => ol_parent item = None) outline.

(** The group entry added for a document that begins a group. *)
Definition group_node (info : DocumentInfo) : OutlineItem :=
  {| ol_title := folder info; ol_page := page info - 1; ol_parent := None |}.

(** The text of a drawing that is a group header: Helvetica-Bold at 14pt. *)
Definition header_text (d : Drawing) : option string :=
  match d with
  | DrawString {| tr_font := HelveticaBold; tr_size := 14; tr_text := text |} =>
      Some text
  | _ => None
  end.

(** The group headers on the pages of a document, in drawing order. *)
Definition header_texts (document_pages : list PageObject) : list string :=
  omap header_text (mjoin (contents <$> document_pages)).

(** The entries at which the loops find a label different from
    [current_person]. *)
Fixpoint starts_from (current_person : option string)
    (document_info : list DocumentInfo) : list DocumentInfo :=
  match document_info with
  | [] => []
  | info :: rest =>
      (if bool_decide (current_person ≠ Some (folder info)) then [info] else [])
      ++ starts_from (Some (folder info)) rest
  end.

(** The group headers drawn so far by the table-of-contents loop. *)
Definition toc_headers (st : TocState) : list string :=
  omap header_text (mjoin (contents <$> can_pages st) ++ can_code st).

(** The link built for the record [r] on a page of height [page_height]:
    the rectangle [x1, y1, x2, y2] becomes
    [x1, page_height - y2, x2, page_height - y1]. *)
Definition link_for (page_height : float) (r : TocLink) : LinkAnnotation :=
  let '(x1, y1, x2, y2) := rect r in
  {| link_rect := (x1, page_height - y2, x2, page_height - y1)%float;
     link_target_page_index := target_page r - 1 |}.

(** Whether the link of [r] is attached to page [k] of a document of [n]
    pages: [k] is the absolute index of its table-of-contents page, both
    indices are below [n], and the PDF library accepts the link. *)
Definition attaches (n : Z) (k : nat) (page_height : float) (r : TocLink)
    : bool :=
  bool_decide (1 + toc_page r = Z.of_nat k)
  && (target_page r - 1 <? n) && (1 + toc_page r <? n)
  && negb (annotation_error (1 + toc_page r) (link_for page_height r)).

(** Page [k] after the record [r] has been handled. *)
Definition with_link (n : Z) (r : TocLink) (k : nat) (page : PageObject)
    : PageObject :=
  if attaches n k (snd (mediabox page)) r
  then annotate (link_for (snd (mediabox page)) r) page
  else page.

(** A record is out of range when one of its two indices is not below the
    page count. *)
Definition out_of_range (n : Z) (r : TocLink) : Prop :=
  ~ (target_page r - 1 < n /\ 1 + toc_page r < n).

(** [o] raises nothing, and the value it returns, if any, satisfies [Q]. *)
Definition contained {A : Type} (Q : A -> Prop) (o : outcome A) : Prop :=
  match o with
  | Returns a => Q a
  | Raises _ => False
  | Diverges => True
  end.

(** The path [process_folder] writes the watermarked copy of [pdf_file] to. *)
Definition watermarked_path (temp_dir folder_name pdf_file : string) : string :=
  Path.joinpath temp_dir
    (folder_name +:+ "_" +:+ Path.stem pdf_file +:+ "_watermarked.pdf").

(** The file at [pdf_path] is a document all of whose pages can be read. *)
Definition whole (fs : gmap string File) (pdf_path : string) : Prop :=
  exists (doc : Document) (ps : list PageObject),
    fs !! pdf_path = Some (Pdf doc) /\ pages doc = Some <$> ps.

(** What the loops keep true from one state to a later one: paths are only
    appended, without repetition; the appended paths satisfy [P] and hold a
    document that can be read to the end; every other file is as before. *)
Definition grows (P : string -> Prop)
    (st st' : gmap string File * list string) : Prop :=
  exists new : list string,
    st'.2 = st.2 ++ new /\
    (NoDup st.2 -> NoDup st'.2) /\
    Forall (fun p => P p /\ whole st'.1 p) new /\
    forall p, p ∉ new -> st'.1 !! p = st.1 !! p.

(** The paths the loops of [process_folder] may produce. *)
Definition watermarked_from (temp_dir : string)
    (folders : list (string * list string)) (p : string) : Prop :=
  exists (folder_name : string) (pdf_files : list string) (pdf_file : string),
    (folder_name, pdf_files) ∈ folders /\
    (folder_name ∉ exclude_folders) /\
    pdf_file ∈ pdf_files /\
    p = watermarked_path temp_dir folder_name pdf_file.

(** The state of the table-of-contents loop is well formed: [page_num]
    counts the closed pages, saving gives at least one page, the pages are
    A4 pages without annotation, and every record names a page that saving
    writes. *)
Definition toc_wf (st : TocState) : Prop :=
  page_num st = Z.of_nat (length (can_pages st)) /\
  (1 <= length (canvas_save st))%nat /\
  Forall (fun p => mediabox p = A4 /\ annotations p = []) (canvas_save st) /\
  Forall (fun r => 0 <= toc_page r < Z.of_nat (length (canvas_save st)))
         (toc_links st).

(** The entries of an outline that have a parent. *)
Definition children (outline : list OutlineItem) : list OutlineItem :=
  filter (fun item => ol_parent item <> None) outline.

(** [item] is the entry of the document [info] in [outline]: it carries the
    display name and the 0-based start page of the document, and its parent
    is a top-level entry of [outline] titled with the document's group. *)
Definition document_node (outline : list OutlineItem) (info : DocumentInfo)
    (item : OutlineItem) : Prop :=
  ol_title item = document info /\
  ol_page item = page info - 1 /\
  exists (k : nat) (group : OutlineItem),
    ol_parent item = Some k /\
    outline !! k = Some group /\
    ol_parent group = None /\
    ol_title group = folder info.

(** [person_bookmark] refers to the entry of [current_person]. *)
Definition bookmark_state_ok (st : PdfWriter * option string * option nat)
    : Prop :=
  forall folder_name : string,
    st.1.2 = Some folder_name ->
    exists (k : nat) (group : OutlineItem),
      st.2 = Some k /\
      w_outline st.1.1 !! k = Some group /\
      ol_parent group = None /\
      ol_title group = folder_name.

(** The pages of [slots] before the first one that cannot be read. *)
Fixpoint readable_prefix (slots : list (option PageObject)) : list PageObject :=
  match slots with
  | Some page :: rest => page :: readable_prefix rest
  | _ => []
  end.

(** The pages a concatenation loop takes from the file at [pdf_path]. *)
Definition document_pages (fs : gmap string File) (pdf_path : string)
    : list PageObject :=
  match fs !! pdf_path with
  | Some (Pdf doc) => readable_prefix (pages doc)
  | _ => []
  end.

(** [key x <= key y] in the order of Python strings. *)
Definition key_le {A : Type} (key : A -> string) (x y : A) : Prop :=
  String.ltb (key y) (key x) = false.

(** Equal labels are next to each other: a label met again after another
    label does not occur. *)
Definition grouped (labels : list string) : Prop :=
  forall (i j k : nat) (a b : string),
    (i < j < k)%nat ->
    labels !! i = Some a -> labels !! j = Some b -> labels !! k = Some a ->
    b = a.

(** Whether a float is a number other than an infinity. *)
Definition is_finite (x : float) : bool :=
  match Prim2SF x with
  | S754_infinity _ | S754_nan => false
  | _ => true
  end.

(** Whether [setFillAlpha] accepts a number as the opacity of the fill
    colour: it raises [ValueError] outside the interval from 0 to 1. *)
Definition accepted_alpha (a : float) : bool :=
  PrimFloat.leb 0 a && PrimFloat.leb a 1.

(** ** Properties *)

(** *** Strings *)

Lemma string_length_app (a b : string) :
  String.length (a +:+ b) = (String.length a + String.length b)%nat.
Proof. induction a as [|c a IH]; simpl; [reflexivity | now rewrite IH]. Qed.

Lemma substring_whole_prefix (a b : string) :
  substring 0 (String.length a) (a +:+ b) = a.
Proof.
  induction a as [|c a IH]; simpl.
  - destruct b; reflexivity.
  - now rewrite IH.
Qed.

Lemma substring_0_length (n : nat) (s : string) :
  (n <= String.length s)%nat -> String.length (substring 0 n s) = n.
Proof.
  revert n; induction s as [|c s IH]; intros [|n] Hn; simpl in *;
    try reflexivity; try lia.
  rewrite IH; [reflexivity | lia].
Qed.

Lemma drop_last_app (a b : string) :
  Py.drop_last (String.length b) (a +:+ b) = a.
Proof.
  unfold Py.drop_last. rewrite string_length_app.
  replace (String.length a + String.length b - String.length b)%nat
    with (String.length a) by lia.
  apply substring_whole_prefix.
Qed.

(** *** Loops *)

Lemma bind_returns {A B : Type} (a : A) (f : A -> outcome B) :
  (x ← Returns a; f x) = f a.
Proof. reflexivity. Qed.

Lemma while_exit {S : Type} (fuel : nat) (cond : S -> bool)
    (body : S -> outcome S) (s : S) :
  cond s = false -> while fuel cond body s = Returns s.
Proof. intros H. destruct fuel; simpl; now rewrite H. Qed.

Lemma while_iterate {S : Type} (fuel : nat) (cond : S -> bool)
    (body : S -> outcome S) (s s' : S) :
  cond s = true -> body s = Returns s' ->
  while (Datatypes.S fuel) cond body s = while fuel cond body s'.
Proof. intros Hc Hb. simpl. now rewrite Hc, Hb. Qed.

(** A state the body maps to itself, with the condition true, is never left. *)
Lemma while_stuck {S : Type} (cond : S -> bool) (body : S -> outcome S) (s : S) :
  cond s = true -> body s = Returns s ->
  forall fuel, while fuel cond body s = Diverges.
Proof.
  intros Hc Hb fuel. induction fuel as [|n IH]; simpl; rewrite Hc.
  - reflexivity.
  - rewrite Hb. exact IH.
Qed.

(** *** The truncation step *)

Lemma truncate_step_idempotent (t : string) :
  truncate_step (truncate_step t) = truncate_step t.
Proof.
  unfold truncate_step at 1.
  unfold truncate_step.
  change 3%nat with (String.length "...") at 1.
  now rewrite drop_last_app.
Qed.

Lemma truncate_step_length (t : string) :
  (3 <= String.length t)%nat ->
  String.length (truncate_step t) = String.length t.
Proof.
  intros H. unfold truncate_step, Py.drop_last.
  rewrite string_length_app, substring_0_length by lia. simpl. lia.
Qed.

Lemma truncate_step_ends_with (t : string) : ends_with "..." (truncate_step t).
Proof. now exists (Py.drop_last 3 t). Qed.

(** C9: one truncation step is [t[:-3] + "..."]; on a text of more than 3
    characters it keeps the length, and applying it twice gives the same
    string as applying it once. *)
Theorem truncate_step_preserves_length_and_is_idempotent (t : string) :
  truncate_step t = Py.drop_last 3 t +:+ "..." /\
  ((3 < String.length t)%nat ->
   String.length (truncate_step t) = String.length t) /\
  truncate_step (truncate_step t) = truncate_step t.
Proof.
  split; [reflexivity | split].
  - intros H. apply truncate_step_length. lia.
  - apply truncate_step_idempotent.
Qed.

(** *** The font-size search *)

Lemma while_fuel_mono {S : Type} (cond : S -> bool) (body : S -> outcome S)
    (n m : nat) (s r : S) :
  (n <= m)%nat ->
  while n cond body s = Returns r -> while m cond body s = Returns r.
Proof.
  revert m s. induction n as [|n IH]; intros m s Hle H; simpl in H.
  - destruct (cond s) eqn:Hc; [discriminate |].
    now rewrite while_exit.
  - destruct (cond s) eqn:Hc; [| now rewrite while_exit].
    destruct m as [|m]; [lia |]. simpl. rewrite Hc.
    destruct (body s) as [s'| |]; simpl in *; try discriminate.
    apply IH; [lia | exact H].
Qed.

Lemma while_total_body {S : Type} (cond : S -> bool) (body : S -> S)
    (n : nat) (s : S) (e : exn) :
  while n cond (fun x => Returns (body x)) s <> Raises e.
Proof.
  revert s. induction n as [|n IH]; intros s; simpl;
    destruct (cond s); try discriminate. apply IH.
Qed.

Lemma scale_loop (maxw : float) (n : nat) (font_size : Z) (text_width : float) :
  min_font_size <= font_size ->
  font_size - min_font_size <= Z.of_nat n ->
  exists fs tw,
    while n (scale_cond maxw) scale_body (font_size, text_width)
      = Returns (fs, tw) /\
    min_font_size <= fs <= font_size /\
    (fs = font_size /\ tw = text_width \/
     tw = stringWidth watermark_text HelveticaBold fs) /\
    (Py.gt tw maxw = false \/ fs = min_font_size).
Proof.
  revert font_size text_width.
  induction n as [|n IH]; intros font_size text_width Hmin Hn;
    destruct (scale_cond maxw (font_size, text_width)) eqn:Hc;
    unfold scale_cond in Hc; simpl in Hc.
  - apply andb_true_iff in Hc as [_ Hlt]. apply Z.ltb_lt in Hlt. lia.
  - exists font_size, text_width. rewrite while_exit by exact Hc.
    split; [reflexivity |]. split; [lia |]. split; [now left |].
    apply andb_false_iff in Hc as [Hc | Hc]; [now left | right].
    apply Z.ltb_ge in Hc. lia.
  - apply andb_true_iff in Hc as [Hgt Hlt]. apply Z.ltb_lt in Hlt.
    destruct (IH (font_size - 1)
                (stringWidth watermark_text HelveticaBold (font_size - 1)))
      as (fs & tw & Hrun & Hrange & Htw & Hfit); [lia | lia |].
    exists fs, tw. split.
    + rewrite (while_iterate n _ _ (font_size, text_width)
                 (font_size - 1,
                  stringWidth watermark_text HelveticaBold (font_size - 1)));
        [exact Hrun | | reflexivity].
      unfold scale_cond; simpl. rewrite Hgt. simpl. now apply Z.ltb_lt.
    + split; [lia |]. split; [| exact Hfit].
      right. destruct Htw as [[-> ->] | ->]; reflexivity.
  - exists font_size, text_width. rewrite while_exit by exact Hc.
    split; [reflexivity |]. split; [lia |]. split; [now left |].
    apply andb_false_iff in Hc as [Hc | Hc]; [now left | right].
    apply Z.ltb_ge in Hc. lia.
Qed.

Lemma scale_down_returns (maxw : float) (fuel : nat) :
  (16 <= fuel)%nat ->
  exists fs tw,
    scale_down fuel maxw = Returns (fs, tw) /\
    min_font_size <= fs <= max_font_size /\
    tw = stringWidth watermark_text HelveticaBold fs /\
    (Py.gt tw maxw = false \/ fs = min_font_size).
Proof.
  intros Hfuel. unfold scale_down.
  destruct (scale_loop maxw fuel max_font_size
              (stringWidth watermark_text HelveticaBold max_font_size))
    as (fs & tw & Hrun & Hrange & Htw & Hfit).
  - unfold min_font_size, max_font_size. lia.
  - unfold min_font_size, max_font_size. lia.
  - exists fs, tw. split; [exact Hrun |]. split; [exact Hrange |].
    split; [| exact Hfit].
    destruct Htw as [[-> ->] | ->]; reflexivity.
Qed.

Lemma max_allowed_width_value (width maxw : float) :
  max_allowed_width width = Returns maxw ->
  maxw = (usable_width width
          / (PrimFloat.abs (math_cos rotation_rad)
             + PrimFloat.abs (math_sin rotation_rad)
               * (Py.float_of_Z max_font_size / width)))%float.
Proof.
  unfold max_allowed_width, rotation_width_factor, Py.truediv. intros H.
  destruct (PrimFloat.eqb width 0); simpl in H; [discriminate |].
  match type of H with
  | (if ?b then _ else _) = _ => destruct b; [discriminate |]
  end.
  now inversion H.
Qed.

(** C3, as the code has it: the text is measured at the chosen font size,
    which lies between 8 and 24, and unless the search ended at the 8pt
    floor that width is not greater than the allowed width
    [usable_width / rotation_width_factor], where
    [usable_width = width * (1 - 2 * 0.1)] and the factor
    [|cos 30| + |sin 30| * (24 / width)] is computed once, at the 24pt
    starting size. *)
Theorem font_search_respects_allowed_width (width maxw : float) (fuel : nat) :
  (16 <= fuel)%nat ->
  max_allowed_width width = Returns maxw ->
  maxw = (usable_width width
          / (PrimFloat.abs (math_cos rotation_rad)
             + PrimFloat.abs (math_sin rotation_rad)
               * (Py.float_of_Z max_font_size / width)))%float /\
  exists (font_size : Z) (text_width : float),
    scale_down fuel maxw = Returns (font_size, text_width) /\
    min_font_size <= font_size <= max_font_size /\
    text_width = stringWidth watermark_text HelveticaBold font_size /\
    (font_size <> min_font_size -> Py.gt text_width maxw = false).
Proof.
  intros Hfuel Hmax. split; [now apply max_allowed_width_value |].
  destruct (scale_down_returns maxw fuel Hfuel)
    as (fs & tw & Hrun & Hrange & Htw & Hfit).
  exists fs, tw. split; [exact Hrun |]. split; [exact Hrange |].
  split; [exact Htw |].
  intros Hne. destruct Hfit; [assumption | contradiction].
Qed.

(** *** The truncation loop *)

Lemma truncate_short (fuel : nat) (maxw : float) (font_size : Z)
    (text_width : float) :
  Py.len watermark_text <= 10 ->
  truncate fuel maxw font_size text_width = Returns (watermark_text, text_width).
Proof.
  intros Hlen. unfold truncate. apply while_exit.
  unfold truncate_cond; simpl. apply andb_false_iff. right.
  apply Z.ltb_ge. exact Hlen.
Qed.

Lemma truncate_once (fuel : nat) (maxw : float) (font_size : Z)
    (text_width : float) :
  Py.gt text_width maxw = true ->
  10 < Py.len watermark_text ->
  Py.gt (stringWidth (truncate_step watermark_text) HelveticaBold font_size)
        maxw = false ->
  (1 <= fuel)%nat ->
  truncate fuel maxw font_size text_width
  = Returns (truncate_step watermark_text,
             stringWidth (truncate_step watermark_text) HelveticaBold font_size).
Proof.
  intros Hgt Hlen Hfit Hfuel. unfold truncate.
  destruct fuel as [|n]; [lia |].
  rewrite (while_iterate n _ _ _
             (truncate_step watermark_text,
              stringWidth (truncate_step watermark_text) HelveticaBold
                font_size)).
  - apply while_exit. unfold truncate_cond; simpl. now rewrite Hfit.
  - unfold truncate_cond; simpl. rewrite Hgt. simpl. now apply Z.ltb_lt.
  - reflexivity.
Qed.

(** The defect of the loop: when the text with its last three characters
    replaced by the marker is still too wide, the next step produces the
    same text again, and the loop never ends. *)
Lemma truncate_diverges (maxw : float) (font_size : Z) (text_width : float) :
  Py.gt text_width maxw = true ->
  10 < Py.len watermark_text ->
  Py.gt (stringWidth (truncate_step watermark_text) HelveticaBold font_size)
        maxw = true ->
  forall fuel, truncate fuel maxw font_size text_width = Diverges.
Proof.
  intros Hgt Hlen Hwide fuel. unfold truncate.
  assert (Hcond0 : truncate_cond maxw (watermark_text, text_width) = true).
  { unfold truncate_cond; simpl. rewrite Hgt. simpl. now apply Z.ltb_lt. }
  destruct fuel as [|n]; simpl; rewrite Hcond0; [reflexivity |].
  apply while_stuck.
  - unfold truncate_cond; simpl. rewrite Hwide. simpl. apply Z.ltb_lt.
    unfold Py.len in *. rewrite truncate_step_length; lia.
  - unfold truncate_body; simpl. now rewrite truncate_step_idempotent.
Qed.

Lemma fit_text_overflow (fuel : nat) (width maxw : float) (font_size : Z)
    (text_width : float) :
  max_allowed_width width = Returns maxw ->
  scale_down fuel maxw = Returns (font_size, text_width) ->
  Py.gt text_width maxw = true ->
  fit_text fuel width
  = ('(truncated_text, text_width') ←
       truncate fuel maxw font_size text_width;
     mret (font_size, truncated_text, text_width')).
Proof.
  intros Hmax Hscale Hgt. unfold fit_text. rewrite Hmax. simpl.
  rewrite Hscale. simpl. now rewrite Hgt.
Qed.

Lemma fit_text_diverges (width maxw : float) (font_size : Z)
    (text_width : float) :
  max_allowed_width width = Returns maxw ->
  scale_down 16 maxw = Returns (font_size, text_width) ->
  Py.gt text_width maxw = true ->
  10 < Py.len watermark_text ->
  Py.gt (stringWidth (truncate_step watermark_text) HelveticaBold font_size)
        maxw = true ->
  forall fuel, fit_text fuel width = Diverges.
Proof.
  intros Hmax Hscale Hgt Hlen Hwide fuel.
  destruct (scale_down fuel maxw) as [[fs tw]| e |] eqn:Hrun.
  - assert (Heq : (fs, tw) = (font_size, text_width)).
    { unfold scale_down in *.
      pose proof (while_fuel_mono _ _ _ (Nat.max fuel 16) _ _
                    (Nat.le_max_l fuel 16) Hrun) as H1.
      pose proof (while_fuel_mono _ _ _ (Nat.max fuel 16) _ _
                    (Nat.le_max_r fuel 16) Hscale) as H2.
      congruence. }
    inversion Heq; subst fs tw.
    rewrite (fit_text_overflow fuel width maxw font_size text_width)
      by assumption.
    now rewrite truncate_diverges.
  - exfalso. unfold scale_down in Hrun.
    exact (while_total_body _ (fun s => (fst s - 1,
             stringWidth watermark_text HelveticaBold (fst s - 1))) _ _ _ Hrun).
  - unfold fit_text. rewrite Hmax. simpl. now rewrite Hrun.
Qed.

(** C4, as the code has it by design: when the text still overflows the
    allowed width after the font-size search (which then stands at the 8pt
    floor), a text of at most 10 characters is returned unchanged, and a
    text of more than 10 characters whose once-truncated form fits is
    returned in that form, which fits, ends in the ellipsis marker and has
    the length of the original text. *)
Theorem truncation_in_overflow_scenario (fuel : nat) (width maxw : float)
    (font_size : Z) (text_width : float) :
  (16 <= fuel)%nat ->
  max_allowed_width width = Returns maxw ->
  scale_down fuel maxw = Returns (font_size, text_width) ->
  Py.gt text_width maxw = true ->
  font_size = min_font_size /\
  (Py.len watermark_text <= 10 ->
   fit_text fuel width = Returns (font_size, watermark_text, text_width)) /\
  (10 < Py.len watermark_text ->
   Py.gt (stringWidth (truncate_step watermark_text) HelveticaBold font_size)
         maxw = false ->
   fit_text fuel width
   = Returns (font_size, truncate_step watermark_text,
              stringWidth (truncate_step watermark_text) HelveticaBold
                font_size) /\
   ends_with "..." (truncate_step watermark_text) /\
   Py.len (truncate_step watermark_text) = Py.len watermark_text).
Proof.
  intros Hfuel Hmax Hscale Hgt.
  pose proof (fit_text_overflow fuel width maxw font_size text_width
                Hmax Hscale Hgt) as Hfit.
  split; [| split].
  - destruct (scale_down_returns maxw fuel Hfuel)
      as (fs & tw & Hrun & _ & _ & Hfloor).
    rewrite Hscale in Hrun. inversion Hrun; subst fs tw.
    destruct Hfloor as [Hno | Hfs]; [congruence | exact Hfs].
  - intros Hlen. rewrite Hfit, truncate_short by exact Hlen. reflexivity.
  - intros Hlen Hfits. split; [| split].
    + rewrite Hfit, truncate_once by (assumption || lia). reflexivity.
    + apply truncate_step_ends_with.
    + unfold Py.len in *. rewrite truncate_step_length; lia.
Qed.

(** *** Watermarking a document *)

Lemma watermark_pages_cons (fuel : nat) (writer : PdfWriter)
    (page : PageObject) (rest : list (option PageObject)) :
  watermark_pages fuel writer (Some page :: rest)
  = (page' ← watermark_page fuel page;
     watermark_pages fuel (add_page writer page') rest).
Proof. reflexivity. Qed.

Lemma for_each_pure {A B : Type} (body : A -> outcome B) (g : A -> B)
    (l : list A) :
  (forall x b, body x = Returns b -> b = g x) ->
  forall r : list B, for_each body l = Returns r -> r = g <$> l.
Proof.
  intros Hbody. induction l as [|x l IH]; intros r H; simpl in H.
  - now inversion H.
  - destruct (body x) as [b| |] eqn:Hb; try discriminate.
    rewrite bind_returns in H.
    destruct (for_each body l) as [bs| |]; try discriminate.
    rewrite bind_returns in H. inversion H.
    now rewrite (Hbody x b Hb), (IH bs eq_refl).
Qed.

Lemma create_watermark_pdf_box (fuel : nat) (width height : float)
    (overlay : PageObject) :
  create_watermark_pdf fuel width height = Returns overlay ->
  mediabox overlay = (width, height) /\ annotations overlay = [].
Proof.
  unfold create_watermark_pdf. intros H.
  destruct (fit_text fuel width) as [[[fs t] w]| |]; try discriminate.
  rewrite bind_returns in H. cbv beta iota zeta in H.
  match type of H with
  | (?m ≫= _) = _ => destruct m as [stamps| |]; try discriminate
  end.
  rewrite bind_returns in H. inversion H. split; reflexivity.
Qed.

Lemma watermark_page_overlay (fuel : nat) (page overlay : PageObject) :
  create_watermark_pdf fuel (fst (mediabox page)) (snd (mediabox page))
    = Returns overlay ->
  watermark_page fuel page = Returns (merge_page page overlay) /\
  mediabox overlay = mediabox page.
Proof.
  intros H. unfold watermark_page. rewrite H. split; [reflexivity |].
  apply create_watermark_pdf_box in H as [H _]. rewrite H.
  now destruct (mediabox page).
Qed.

Lemma watermark_pages_returns (fuel : nat) (ps : list PageObject) :
  forall writer : PdfWriter,
  Forall (fun p => exists overlay,
            create_watermark_pdf fuel (fst (mediabox p)) (snd (mediabox p))
              = Returns overlay) ps ->
  exists ps',
    watermark_pages fuel writer (Some <$> ps)
      = Returns {| w_pages := w_pages writer ++ ps';
                   w_outline := w_outline writer |} /\
    Forall2 (fun p p' => exists overlay,
               create_watermark_pdf fuel (fst (mediabox p)) (snd (mediabox p))
                 = Returns overlay /\
               mediabox overlay = mediabox p /\
               p' = merge_page p overlay) ps ps'.
Proof.
  induction ps as [|p ps IH]; intros writer Hall.
  - exists []. simpl. rewrite app_nil_r. destruct writer. split; [reflexivity | constructor].
  - inversion Hall as [|? ? [overlay Hov] Hrest]; subst.
    destruct (watermark_page_overlay fuel p overlay Hov) as [Hpage Hbox].
    destruct (IH (add_page writer (merge_page p overlay)) Hrest)
      as (ps' & Hrun & Hrel).
    exists (merge_page p overlay :: ps'). split.
    + rewrite fmap_cons, watermark_pages_cons, Hpage, bind_returns, Hrun.
      simpl. now rewrite <- app_assoc.
    + constructor; [| exact Hrel]. now exists overlay.
Qed.

Lemma watermark_pages_raises (fuel : nat) (before : list PageObject)
    (slot : option PageObject) (after : list (option PageObject)) :
  forall writer : PdfWriter,
  Forall (fun p => exists p', watermark_page fuel p = Returns p') before ->
  page_raises fuel slot ->
  exists e,
    watermark_pages fuel writer ((Some <$> before) ++ slot :: after) = Raises e.
Proof.
  induction before as [|p before IH]; intros writer Hall Hbad.
  - simpl. destruct Hbad as [-> | (p & e & -> & Hp)]; simpl.
    + now exists PdfReadError.
    + rewrite Hp. now exists e.
  - inversion Hall as [|? ? [p' Hp] Hrest]; subst.
    rewrite fmap_cons, <- app_comm_cons, watermark_pages_cons, Hp, bind_returns.
    now apply IH.
Qed.

(** C6: when the pages before one are processed and that one raises,
    [watermark_pdf] returns [False] and leaves the files as they were;
    [process_folder]'s loop then adds nothing to [watermarked_pdfs], which
    is what the combined output is built from, and goes on with the
    remaining files exactly as if the document had not been there; a run
    that meets the document first gives what the run without it gives. *)
Theorem failing_page_excludes_document_only (fuel : nat)
    (fs : gmap string File) (input_path : string) (doc : Document)
    (before : list PageObject) (slot : option PageObject)
    (after : list (option PageObject)) :
  fs !! input_path = Some (Pdf doc) ->
  pages doc = (Some <$> before) ++ slot :: after ->
  Forall (fun p => exists p', watermark_page fuel p = Returns p') before ->
  page_raises fuel slot ->
  (forall output_path,
     watermark_pdf fuel fs input_path output_path = Returns (false, fs)) /\
  (forall (temp_dir folder_name : string) (watermarked_pdfs rest : list string),
    process_file fuel temp_dir folder_name (fs, watermarked_pdfs) input_path
      = Returns (fs, watermarked_pdfs) /\
    process_files fuel temp_dir folder_name (fs, watermarked_pdfs)
      (input_path :: rest)
      = process_files fuel temp_dir folder_name (fs, watermarked_pdfs) rest) /\
  forall (source_path folder_name : string) (rest : list string)
         (more : list (string * list string)) (title_text : string),
    process_folder fuel fs source_path
      ((folder_name, input_path :: rest) :: more) title_text
    = process_folder fuel fs source_path ((folder_name, rest) :: more)
        title_text.
Proof.
  intros Hfile Hpages Hall Hbad.
  assert (Hfail : forall output_path,
             watermark_pdf fuel fs input_path output_path = Returns (false, fs)).
  { intros output_path.
    destruct (watermark_pages_raises fuel before slot after empty_writer
                Hall Hbad) as [e He].
    unfold watermark_pdf, PdfReader. rewrite Hfile. simpl.
    rewrite Hpages, He. reflexivity. }
  assert (Hfile_step :
            forall temp_dir folder_name watermarked_pdfs,
              process_file fuel temp_dir folder_name (fs, watermarked_pdfs)
                input_path = Returns (fs, watermarked_pdfs)).
  { intros temp_dir folder_name watermarked_pdfs.
    unfold process_file. case_bool_decide; [reflexivity |].
    rewrite Hfail. reflexivity. }
  assert (Hfiles :
            forall temp_dir folder_name watermarked_pdfs rest,
              process_files fuel temp_dir folder_name (fs, watermarked_pdfs)
                (input_path :: rest)
              = process_files fuel temp_dir folder_name (fs, watermarked_pdfs)
                  rest).
  { intros temp_dir folder_name watermarked_pdfs rest.
    change (process_files fuel temp_dir folder_name (fs, watermarked_pdfs)
              (input_path :: rest))
      with (st' ← process_file fuel temp_dir folder_name
                    (fs, watermarked_pdfs) input_path;
            process_files fuel temp_dir folder_name st' rest).
    rewrite Hfile_step. reflexivity. }
  split; [exact Hfail |]. split.
  - intros temp_dir folder_name watermarked_pdfs rest.
    split; [apply Hfile_step | apply Hfiles].
  - intros source_path folder_name rest more title_text.
    unfold process_folder. cbn [process_folders]. now rewrite Hfiles.
Qed.

(** *** Document information *)

Lemma analyze_entries (fs : gmap string File) (pdf_paths : list string) :
  forall (document_info : list DocumentInfo) (current_page : Z),
  (foldl (analyze_document fs) (document_info, current_page) pdf_paths).1
  = document_info ++ entries_from fs current_page pdf_paths.
Proof.
  induction pdf_paths as [|pdf_path rest IH]; intros document_info current_page.
  - simpl. now rewrite app_nil_r.
  - simpl. destruct (PdfReader fs pdf_path) as [reader| |]; rewrite IH.
    + now rewrite <- app_assoc.
    + reflexivity.
    + reflexivity.
Qed.

Lemma entries_from_head (fs : gmap string File) (pdf_paths : list string) :
  forall (current_page : Z) (first : DocumentInfo),
  entries_from fs current_page pdf_paths !! 0%nat = Some first ->
  page first = current_page.
Proof.
  induction pdf_paths as [|pdf_path rest IH]; intros current_page first H;
    simpl in H; [discriminate |].
  destruct (PdfReader fs pdf_path) as [reader| |]; [| now apply IH ..].
  now inversion H.
Qed.

Lemma entries_from_consecutive (fs : gmap string File) (pdf_paths : list string) :
  forall (current_page : Z) (i : nat) (e1 e2 : DocumentInfo),
  entries_from fs current_page pdf_paths !! i = Some e1 ->
  entries_from fs current_page pdf_paths !! S i = Some e2 ->
  page e2 = page e1 + num_pages e1.
Proof.
  induction pdf_paths as [|pdf_path rest IH]; intros current_page i e1 e2 H1 H2;
    simpl in H1, H2; [discriminate |].
  destruct (PdfReader fs pdf_path) as [reader| |];
    [| eapply IH; eassumption ..].
  destruct i as [|i].
  - inversion H1; subst e1; simpl. simpl in H2.
    now apply entries_from_head in H2.
  - simpl in H1, H2. eapply IH; eassumption.
Qed.

Lemma entries_from_length (fs : gmap string File) (pdf_paths : list string) :
  forall current_page : Z,
  length (entries_from fs current_page pdf_paths)
  = length (filter (fun pdf_path => readable fs pdf_path = true) pdf_paths).
Proof.
  induction pdf_paths as [|pdf_path rest IH]; intros current_page;
    [reflexivity |].
  rewrite filter_cons. simpl. unfold PdfReader, readable.
  destruct (fs !! pdf_path) as [[|doc]|] eqn:Hfile.
  - rewrite decide_False by discriminate. apply IH.
  - rewrite decide_True by reflexivity. simpl. now rewrite IH.
  - rewrite decide_False by discriminate. apply IH.
Qed.

(** C2: in the document-info list, every entry starts where the entry
    before it ends, the first entry starts on page
    [1 + (1 + max(1, (n * 2) // 40)) = 2 + max(1, (n * 2) // 40)] for [n]
    input paths, and there is one entry per readable input document. *)
Theorem start_pages_are_contiguous (fs : gmap string File)
    (pdf_paths : list string) :
  let document_info := (analyze_documents fs pdf_paths).1 in
  let n := Z.of_nat (length pdf_paths) in
  (forall (i : nat) (e1 e2 : DocumentInfo),
     document_info !! i = Some e1 ->
     document_info !! S i = Some e2 ->
     page e2 = page e1 + num_pages e1) /\
  (forall first : DocumentInfo,
     document_info !! 0%nat = Some first ->
     page first = 2 + Z.max 1 ((n * 2) `div` 40)) /\
  length document_info
  = length (filter (fun pdf_path => readable fs pdf_path = true) pdf_paths).
Proof.
  unfold analyze_documents. rewrite analyze_entries. simpl.
  split; [| split].
  - intros i e1 e2. apply entries_from_consecutive.
  - intros first H. apply entries_from_head in H. rewrite H.
    unfold first_document_page, estimated_toc_pages. lia.
  - apply entries_from_length.
Qed.

(** C7 at the file [Bob_payslip.pdf] of the folder [Bob]: the group label is
    the part of the file name before the first underscore, but the display
    name the code computes is [Payslip], because it removes every occurrence
    of [Bob_], where the convention gives [Bob Payslip]. *)
Theorem display_name_with_repeated_group_prefix :
  let pdf_path := "src/temp_watermarked/Bob_Bob_payslip_watermarked.pdf" in
  folder_name_of pdf_path = "Bob" /\
  document_name_of pdf_path = "Payslip" /\
  display_name_by_convention pdf_path = "Bob Payslip".
Proof. vm_compute. repeat split. Qed.

(** *** Group headers and group bookmarks *)

Lemma starts_from_imap (document_info : list DocumentInfo) :
  forall current_person : option string,
  starts_from current_person document_info
  = mjoin (imap (fun i info =>
                   if match i with
                      | O => bool_decide (current_person ≠ Some (folder info))
                      | S j => bool_decide (folder <$> document_info !! j
                                            ≠ Some (folder info))
                      end
                   then [info] else [])
                document_info).
Proof.
  induction document_info as [|info rest IH]; intros current_person;
    [reflexivity |].
  rewrite imap_cons. simpl. f_equal. rewrite IH. f_equal.
  apply imap_ext. intros [|j] x Hx; reflexivity.
Qed.

Lemma starts_from_run_starts (document_info : list DocumentInfo) :
  starts_from None document_info = run_starts document_info.
Proof.
  rewrite starts_from_imap. unfold run_starts. f_equal.
  apply imap_ext. intros [|j] x Hx; simpl.
  - reflexivity.
  - now rewrite Hx.
Qed.

Lemma runs_cons (x : string) (rest : list string) :
  runs (x :: rest)
  = match runs rest with
    | (y, k) :: more =>
        if bool_decide (x = y) then (y, S k) :: more
        else (x, 1%nat) :: (y, k) :: more
    | [] => [(x, 1%nat)]
    end.
Proof. reflexivity. Qed.

Lemma starts_from_runs (document_info : list DocumentInfo) :
  forall current_person : option string,
  folder <$> starts_from current_person document_info
  = match runs (folder <$> document_info) with
    | [] => []
    | (y, k) :: more =>
        if bool_decide (current_person = Some y) then more.*1
        else y :: more.*1
    end.
Proof.
  induction document_info as [|info rest IH]; intros current_person;
    [reflexivity |].
  cbn [starts_from]. rewrite fmap_app, IH, fmap_cons, runs_cons.
  destruct (runs (folder <$> rest)) as [|[y k] more];
    repeat case_bool_decide; simpl; simplify_eq; try congruence; reflexivity.
Qed.

Lemma starts_from_app (l1 : list DocumentInfo) (info : DocumentInfo)
    (l2 : list DocumentInfo) :
  forall current_person : option string,
  starts_from current_person (l1 ++ info :: l2)
  = starts_from current_person (l1 ++ [info])
    ++ starts_from (Some (folder info)) l2.
Proof.
  induction l1 as [|x l1 IH]; intros current_person; simpl.
  - now rewrite app_nil_r.
  - now rewrite IH, app_assoc.
Qed.

Lemma starts_from_contains (a : string) (l : list DocumentInfo) :
  forall current_person : option string,
  current_person ≠ Some a ->
  (exists info, info ∈ l /\ folder info = a) ->
  (1 <= length (filter (fun info => folder info = a)
                       (starts_from current_person l)))%nat.
Proof.
  induction l as [|x l IH]; intros current_person Hprev (info & Hin & Ha).
  - inversion Hin.
  - simpl. rewrite filter_app, length_app.
    destruct (decide (folder x = a)) as [Hx | Hx].
    + rewrite bool_decide_true by congruence.
      rewrite filter_cons, decide_True by exact Hx. simpl. lia.
    + apply elem_of_cons in Hin as [-> | Hin]; [contradiction |].
      specialize (IH (Some (folder x))).
      assert (1 <= length (filter (fun info => folder info = a)
                             (starts_from (Some (folder x)) l)))%nat.
      { apply IH; [congruence | now exists info]. }
      lia.
Qed.

(** A label seen again after another label begins a group twice. *)
Lemma starts_from_reappearing (a : string) (l : list DocumentInfo)
    (i j k : nat) (ei ej ek : DocumentInfo) :
  (i < j < k)%nat ->
  l !! i = Some ei -> l !! j = Some ej -> l !! k = Some ek ->
  folder ei = a -> folder ej ≠ a -> folder ek = a ->
  (2 <= length (filter (fun info => folder info = a) (starts_from None l)))%nat.
Proof.
  intros [Hij Hjk] Hi Hj Hk Hei Hej Hek.
  rewrite <- (take_drop_middle l j ej Hj), starts_from_app.
  rewrite filter_app, length_app.
  assert (1 <= length (filter (fun info => folder info = a)
                         (starts_from None (take j l ++ [ej]))))%nat.
  { apply starts_from_contains; [discriminate |].
    exists ei. split; [| exact Hei].
    apply elem_of_app. left. apply elem_of_take. eauto. }
  assert (1 <= length (filter (fun info => folder info = a)
                         (starts_from (Some (folder ej)) (drop (S j) l))))%nat.
  { apply starts_from_contains; [congruence |].
    exists ek. split; [| exact Hek].
    apply list_elem_of_lookup. exists (k - S j)%nat.
    rewrite lookup_drop. now replace (S j + (k - S j))%nat with k by lia. }
  lia.
Qed.

Lemma bookmark_entry_top (writer : PdfWriter) (current_person : option string)
    (person_bookmark : option nat) (info : DocumentInfo) :
  let st' := bookmark_entry (writer, current_person, person_bookmark) info in
  top_level (w_outline st'.1.1)
  = top_level (w_outline writer)
    ++ (group_node <$> (if bool_decide (current_person ≠ Some (folder info))
                        then [info] else [])) /\
  st'.1.2 = Some (folder info) /\
  w_pages st'.1.1 = w_pages writer.
Proof.
  unfold bookmark_entry, add_outline_item, top_level.
  case_bool_decide as Hnew; simpl.
  - rewrite !filter_app, !filter_cons, filter_nil. simpl.
    rewrite app_nil_r. repeat split.
  - rewrite app_nil_r.
    destruct person_bookmark as [parent|]; simpl.
    + rewrite filter_app, filter_cons, filter_nil. simpl.
      rewrite app_nil_r. repeat split; assumption.
    + repeat split; assumption.
Qed.

Lemma bookmark_fold_top (document_info : list DocumentInfo) :
  forall (writer : PdfWriter) (current_person : option string)
         (person_bookmark : option nat),
  let st' := foldl bookmark_entry (writer, current_person, person_bookmark)
                   document_info in
  top_level (w_outline st'.1.1)
  = top_level (w_outline writer)
    ++ (group_node <$> starts_from current_person document_info) /\
  w_pages st'.1.1 = w_pages writer.
Proof.
  induction document_info as [|info rest IH];
    intros writer current_person person_bookmark.
  - simpl. now rewrite app_nil_r.
  - cbn [foldl starts_from].
    pose proof (bookmark_entry_top writer current_person person_bookmark info)
      as Hstep. cbv zeta in Hstep.
    destruct (bookmark_entry (writer, current_person, person_bookmark) info)
      as [[writer1 current1] bookmark1].
    simpl in Hstep. destruct Hstep as (Htop & -> & Hpages).
    specialize (IH writer1 (Some (folder info)) bookmark1). cbv zeta in IH.
    destruct IH as [IHtop IHpages]. split.
    + rewrite IHtop, Htop, fmap_app. now rewrite app_assoc.
    + now rewrite IHpages.
Qed.

Lemma add_bookmarks_top (ps : list PageObject)
    (document_info : list DocumentInfo) :
  top_level (w_outline (add_bookmarks {| w_pages := ps; w_outline := [] |}
                                      document_info))
  = [ {| ol_title := "Page de Titre"; ol_page := 0; ol_parent := None |};
      {| ol_title := "Table des Matières"; ol_page := 1; ol_parent := None |} ]
    ++ (group_node <$> run_starts document_info).
Proof.
  unfold add_bookmarks, add_outline_item. simpl.
  match goal with
  | |- context [foldl bookmark_entry (?w, None, None) document_info] =>
      pose proof (bookmark_fold_top document_info w None None) as H;
      cbv zeta in H;
      destruct (foldl bookmark_entry (w, None, None) document_info)
        as [[writer' current'] bookmark']
  end.
  simpl in H. destruct H as [H _]. rewrite H, starts_from_run_starts.
  reflexivity.
Qed.

Lemma toc_header_headers (st : TocState) (folder_name : string) :
  toc_headers (toc_header st folder_name)
  = toc_headers st
    ++ (if bool_decide (current_person st ≠ Some folder_name)
        then [folder_name] else []) /\
  current_person (toc_header st folder_name) = Some folder_name.
Proof.
  unfold toc_header, toc_headers. case_bool_decide as Hnew; simpl.
  - rewrite app_assoc, omap_app. simpl. split; reflexivity.
  - now rewrite app_nil_r.
Qed.

Lemma toc_entry_headers (st st' : TocState) (info : DocumentInfo) :
  toc_entry st info = Returns st' ->
  toc_headers st'
  = toc_headers st
    ++ (folder <$> (if bool_decide (current_person st ≠ Some (folder info))
                    then [info] else [])) /\
  current_person st' = Some (folder info).
Proof.
  unfold toc_entry. intros H.
  destruct (toc_header_headers st (folder info)) as [Hh Hc].
  destruct A4 as [width height].
  match type of H with
  | context [Py.int ?x] => destruct (Py.int x) as [num_dots| |]
  end; simpl in H; try discriminate.
  assert (Hflat : forall (pgs : list PageObject) (code extra : list Drawing),
             omap header_text extra = [] ->
             omap header_text (mjoin (contents <$> pgs ++ [canvas_page (code ++ extra)]) ++ [])
             = omap header_text (mjoin (contents <$> pgs) ++ code) /\
             omap header_text (mjoin (contents <$> pgs) ++ (code ++ extra))
             = omap header_text (mjoin (contents <$> pgs) ++ code)).
  { intros pgs code extra Hextra. split.
    - rewrite app_nil_r, fmap_app, join_app. simpl.
      rewrite app_nil_r, !omap_app, Hextra. now rewrite app_nil_r.
    - rewrite app_assoc, omap_app, Hextra. now rewrite app_nil_r. }
  match type of H with
  | (if ?b then _ else _) = _ => destruct b
  end; inversion H; subst st'; clear H; unfold toc_headers in *;
    cbn [can_pages can_code current_person];
    rewrite Hc; (split; [| reflexivity]).
  - edestruct Hflat as [E _]; cycle 1.
    + rewrite E, Hh. case_bool_decide; reflexivity.
    + reflexivity.
  - edestruct Hflat as [_ E]; cycle 1.
    + rewrite E, Hh. case_bool_decide; reflexivity.
    + reflexivity.
Qed.

Lemma toc_entries_headers (document_info : list DocumentInfo) :
  forall st st' : TocState,
  toc_entries st document_info = Returns st' ->
  toc_headers st'
  = toc_headers st ++ (folder <$> starts_from (current_person st) document_info).
Proof.
  induction document_info as [|info rest IH]; intros st st' H.
  - inversion H. simpl. now rewrite app_nil_r.
  - cbn [toc_entries] in H.
    destruct (toc_entry st info) as [st1| |] eqn:Hstep; try discriminate.
    rewrite bind_returns in H.
    destruct (toc_entry_headers st st1 info Hstep) as [Hh Hc].
    rewrite (IH st1 st' H), Hh, Hc. cbn [starts_from].
    now rewrite fmap_app, app_assoc.
Qed.

(** The table-of-contents loop ends; it raises only when [int()] is given
    a measurement that is not finite. *)
Lemma int_outcome (x : float) :
  match Py.int x with
  | Returns _ => True
  | Raises e => e = ValueError
  | Diverges => False
  end.
Proof. unfold Py.int. now destruct (Prim2SF x). Qed.

Lemma toc_entry_outcome (st : TocState) (info : DocumentInfo) :
  match toc_entry st info with
  | Returns _ => True
  | Raises e => e = ValueError
  | Diverges => False
  end.
Proof.
  unfold toc_entry. destruct A4 as [width height].
  match goal with
  | |- context [Py.int ?x] =>
      pose proof (int_outcome x) as H; destruct (Py.int x) as [num_dots| |]
  end; simpl; [| exact H ..].
  match goal with
  | |- context [if ?b then _ else _] => now destruct b
  end.
Qed.

Lemma toc_entries_outcome (document_info : list DocumentInfo) :
  forall st : TocState,
  match toc_entries st document_info with
  | Returns _ => True
  | Raises e => e = ValueError
  | Diverges => False
  end.
Proof.
  induction document_info as [|info rest IH]; intros st; [exact I |].
  cbn [toc_entries].
  pose proof (toc_entry_outcome st info) as H.
  destruct (toc_entry st info) as [st1| |]; simpl; [apply IH | exact H ..].
Qed.

Lemma canvas_save_headers (st : TocState) :
  header_texts (canvas_save st) = toc_headers st.
Proof.
  unfold header_texts, canvas_save, toc_headers.
  destruct (can_code st) as [|d code].
  - now rewrite app_nil_r.
  - rewrite fmap_app, join_app. simpl. now rewrite app_nil_r.
Qed.

Lemma run_starts_labels (document_info : list DocumentInfo) :
  folder <$> run_starts document_info = (runs (folder <$> document_info)).*1.
Proof.
  rewrite <- starts_from_run_starts, starts_from_runs.
  destruct (runs (folder <$> document_info)) as [|[y k] more]; reflexivity.
Qed.

Lemma group_node_titles (l : list DocumentInfo) :
  ol_title <$> (group_node <$> l) = folder <$> l.
Proof.
  induction l as [|x l IH]; [reflexivity |].
  now rewrite !fmap_cons, IH.
Qed.

Lemma group_nodes_titled (a : string) (l : list DocumentInfo) :
  length (filter (fun item => ol_title item = a) (group_node <$> l))
  = length (filter (fun info => folder info = a) l).
Proof.
  induction l as [|x l IH]; [reflexivity |].
  rewrite fmap_cons, !filter_cons. simpl.
  destruct (decide (folder x = a)); simpl; now rewrite IH.
Qed.

(** C10: the top-level outline entries written by the bookmark pass are the
    two fixed ones followed by one group entry for each document whose
    group label differs from the label of the document just before it (and
    for the first document); the table of contents, unless [int()] raises
    on a measurement that is not finite, draws its group headers for the
    same documents.  So there are as many group entries as runs of equal
    consecutive labels, and a label that comes back after another label
    gets at least two entries. *)
Theorem group_nodes_follow_label_runs (ps : list PageObject)
    (document_info : list DocumentInfo) :
  let labels := folder <$> document_info in
  let groups := group_node <$> run_starts document_info in
  top_level (w_outline (add_bookmarks {| w_pages := ps; w_outline := [] |}
                                      document_info))
  = [ {| ol_title := "Page de Titre"; ol_page := 0; ol_parent := None |};
      {| ol_title := "Table des Matières"; ol_page := 1; ol_parent := None |} ]
    ++ groups /\
  length groups = length (runs labels) /\
  ol_title <$> groups = (runs labels).*1 /\
  (forall (fs : gmap string File) (output_path : string),
     match create_table_of_contents fs document_info output_path with
     | Returns (fs', links, n) =>
         exists toc_pages : list PageObject,
           fs' !! output_path
             = Some (Pdf {| pages := Some <$> toc_pages; outline := [] |}) /\
           header_texts toc_pages = ol_title <$> groups
     | Raises e => e = ValueError
     | Diverges => False
     end) /\
  (forall (a : string) (i j k : nat) (ei ej ek : DocumentInfo),
     (i < j < k)%nat ->
     document_info !! i = Some ei ->
     document_info !! j = Some ej ->
     document_info !! k = Some ek ->
     folder ei = a -> folder ej ≠ a -> folder ek = a ->
     (2 <= length (filter (fun item => ol_title item = a) groups))%nat).
Proof.
  cbv zeta. split; [apply add_bookmarks_top |].
  split; [| split; [| split]].
  - rewrite length_fmap, <- (length_fmap folder), run_starts_labels.
    now rewrite length_fmap.
  - now rewrite group_node_titles, run_starts_labels.
  - intros fs output_path. unfold create_table_of_contents.
    pose proof (toc_entries_outcome document_info toc_start) as Hout.
    destruct (toc_entries toc_start document_info) as [st| |] eqn:Hloop;
      simpl; [| exact Hout ..].
    exists (canvas_save st). split.
    + unfold write. now rewrite lookup_insert_eq.
    + rewrite canvas_save_headers, (toc_entries_headers _ _ _ Hloop).
      rewrite group_node_titles, <- starts_from_run_starts. reflexivity.
  - intros a i j k ei ej ek Hlt Hi Hj Hk Hei Hej Hek.
    rewrite group_nodes_titled, <- starts_from_run_starts.
    eapply starts_from_reappearing; eassumption.
Qed.

(** *** The link-injection pass *)

Lemma link_for_pdf_rect (page_height : float) (r : TocLink) :
  {| link_rect := pdf_rect page_height (rect r);
     link_target_page_index := target_page r - 1 |}
  = link_for page_height r.
Proof. unfold link_for, pdf_rect. now destruct (rect r) as [[[x1 y1] x2] y2]. Qed.

Lemma imap_unchanged {A : Type} (f : nat -> A -> A) (l : list A) :
  (forall i x, l !! i = Some x -> f i x = x) -> imap f l = l.
Proof.
  intros H. apply list_eq. intros i. rewrite list_lookup_imap.
  destruct (l !! i) as [x|] eqn:Hx; simpl; [| reflexivity].
  now rewrite (H i x Hx).
Qed.

Lemma add_link_pages (writer : PdfWriter) (r : TocLink) :
  0 <= toc_page r ->
  add_link writer r
  = Returns {| w_pages := imap (with_link (Z.of_nat (length (w_pages writer))) r)
                               (w_pages writer);
               w_outline := w_outline writer |}.
Proof.
  intros Hpos. unfold add_link.
  set (n := Z.of_nat (length (w_pages writer))).
  destruct ((target_page r - 1 <? n) && (1 + toc_page r <? n)) eqn:Hrange.
  - apply andb_true_iff in Hrange as [Ht Hk].
    pose proof Ht as Ht'. pose proof Hk as Hk'.
    apply Z.ltb_lt in Ht', Hk'.
    unfold Py.getitem. fold n.
    replace (1 + toc_page r <? 0) with false by (symmetry; apply Z.ltb_ge; lia).
    replace (0 <=? 1 + toc_page r) with true by (symmetry; apply Z.leb_le; lia).
    rewrite Hk. simpl.
    destruct (w_pages writer !! Z.to_nat (1 + toc_page r)) as [p|] eqn:Hp;
      [| apply lookup_ge_None in Hp; unfold n in Hk'; lia].
    rewrite bind_returns, link_for_pdf_rect. unfold add_annotation. fold n.
    destruct (annotation_error (1 + toc_page r)
                (link_for (snd (mediabox p)) r)) eqn:Herr; simpl.
    + f_equal. destruct writer as [pgs ol]; simpl in *. f_equal.
      symmetry. apply imap_unchanged. intros i x Hx.
      unfold with_link, attaches. case_bool_decide as Hi; simpl; [| reflexivity].
      assert (i = Z.to_nat (1 + toc_page r)) by lia. subst i.
      rewrite Hp in Hx. inversion Hx; subst x.
      rewrite Herr, Ht, Hk. reflexivity.
    + replace (1 + toc_page r <? 0) with false
        by (symmetry; apply Z.ltb_ge; lia).
      replace (0 <=? 1 + toc_page r) with true
        by (symmetry; apply Z.leb_le; lia).
      rewrite Hk. simpl. f_equal. f_equal.
      apply list_eq. intros i. rewrite list_lookup_alter, list_lookup_imap.
      destruct (decide (Z.to_nat (1 + toc_page r) = i)) as [<- | Hne].
      * rewrite Hp. simpl. f_equal. unfold with_link, attaches.
        rewrite bool_decide_true by lia. fold n. rewrite Ht, Hk, Herr.
        reflexivity.
      * destruct (w_pages writer !! i) as [x|]; simpl; [| reflexivity].
        f_equal. unfold with_link, attaches.
        rewrite bool_decide_false by lia. reflexivity.
  - f_equal. destruct writer as [pgs ol]; simpl in *. f_equal.
    symmetry. apply imap_unchanged. intros i x Hx.
    unfold with_link, attaches. fold n.
    destruct (bool_decide (1 + toc_page r = Z.of_nat i)),
      (target_page r - 1 <? n), (1 + toc_page r <? n);
      simpl in *; try discriminate; reflexivity.
Qed.

Lemma add_links_pages (links : list TocLink) :
  forall writer : PdfWriter,
  Forall (fun r => 0 <= toc_page r) links ->
  add_links writer links
  = Returns
      {| w_pages :=
           imap (fun k page =>
                   foldl (fun p r =>
                            with_link (Z.of_nat (length (w_pages writer))) r k p)
                         page links)
                (w_pages writer);
         w_outline := w_outline writer |}.
Proof.
  induction links as [|r rest IH]; intros writer Hall.
  - simpl. f_equal. destruct writer as [pgs ol]; simpl. f_equal.
    symmetry. now apply imap_unchanged.
  - inversion Hall as [|? ? Hr Hrest]; subst.
    cbn [add_links]. rewrite (add_link_pages writer r Hr), bind_returns.
    rewrite (IH _ Hrest). cbn [w_pages w_outline]. rewrite length_imap.
    f_equal. f_equal. apply list_eq. intros i. rewrite !list_lookup_imap.
    now destruct (w_pages writer !! i).
Qed.

Lemma with_links_annotations (n : Z) (k : nat) (links : list TocLink) :
  forall page : PageObject,
  foldl (fun p r => with_link n r k p) page links
  = {| mediabox := mediabox page;
       contents := contents page;
       annotations :=
         annotations page
         ++ omap (fun r =>
                    if attaches n k (snd (mediabox page)) r
                    then Some (link_for (snd (mediabox page)) r) else None)
                 links |}.
Proof.
  induction links as [|r rest IH]; intros page.
  - simpl. rewrite app_nil_r. now destruct page.
  - cbn [foldl omap list_omap]. rewrite IH. unfold with_link at 1 2 3 4 5.
    destruct (attaches n k (snd (mediabox page)) r); simpl.
    + now rewrite <- app_assoc.
    + reflexivity.
Qed.

(** C1: for link records with 0-based table-of-contents page indices, the
    pass returns, and page [k] of its result is page [k] of the input with
    one link appended for each record [r], in order, such that
    [1 + toc_page r = k], [target_page r - 1] and [1 + toc_page r] are both
    below the page count, and the PDF library accepts the link; the link
    targets page index [target_page r - 1] and its rectangle is
    [x1, H - y2, x2, H - y1] with [H] the height of that page [k].  A
    y-range [100, 115] on a page of height 841.89 becomes
    [726.89, 741.89]. *)
Theorem link_injection_annotations (writer : PdfWriter) (links : list TocLink) :
  Forall (fun r => 0 <= toc_page r) links ->
  let n := Z.of_nat (length (w_pages writer)) in
  add_links writer links
  = Returns
      {| w_pages :=
           imap (fun k page =>
                   let H := snd (mediabox page) in
                   {| mediabox := mediabox page;
                      contents := contents page;
                      annotations :=
                        annotations page
                        ++ omap (fun r =>
                                   if attaches n k H r
                                   then Some (link_for H r) else None)
                                links |})
                (w_pages writer);
         w_outline := w_outline writer |} /\
  (forall (k : nat) (H : float) (r : TocLink),
     attaches n k H r = true ->
     Z.of_nat k = 1 + toc_page r /\
     link_target_page_index (link_for H r) = target_page r - 1 /\
     target_page r - 1 < n /\ 1 + toc_page r < n) /\
  (forall (H x1 y1 x2 y2 : float) (target toc : Z),
     link_rect (link_for H {| rect := (x1, y1, x2, y2);
                              target_page := target; toc_page := toc |})
     = (x1, H - y2, x2, H - y1)%float) /\
  (forall x1 x2 : float,
     pdf_rect 841.89%float (x1, 100, x2, 115)%float
     = (x1, 726.89, x2, 741.89)%float).
Proof.
  intros Hall n. split; [| split; [| split]].
  - rewrite (add_links_pages links writer Hall). f_equal. f_equal.
    apply imap_ext. intros k page _. apply with_links_annotations.
  - intros k H r Hatt. unfold attaches in Hatt.
    apply andb_true_iff in Hatt as [Hatt _].
    apply andb_true_iff in Hatt as [Hatt Hk].
    apply andb_true_iff in Hatt as [Hatt Ht].
    apply bool_decide_eq_true in Hatt. apply Z.ltb_lt in Hk, Ht.
    split; [lia |]. split; [| split; assumption].
    unfold link_for. now destruct (rect r) as [[[? ?] ?] ?].
  - reflexivity.
  - intros x1 x2. reflexivity.
Qed.

(** *** The link-injection pass as a whole *)

Lemma add_pages_readable (ps : list PageObject) :
  forall writer : PdfWriter,
  add_pages writer (Some <$> ps)
  = Returns {| w_pages := w_pages writer ++ ps; w_outline := w_outline writer |}.
Proof.
  induction ps as [|p ps IH]; intros writer.
  - simpl. rewrite app_nil_r. now destruct writer.
  - rewrite fmap_cons. cbn [add_pages read_page]. rewrite bind_returns, IH.
    simpl. now rewrite <- app_assoc.
Qed.

Lemma add_links_app (l1 l2 : list TocLink) :
  forall writer : PdfWriter,
  add_links writer (l1 ++ l2)
  = (writer' ← add_links writer l1; add_links writer' l2).
Proof.
  induction l1 as [|r l1 IH]; intros writer; [reflexivity |].
  simpl. destruct (add_link writer r) as [w1| |]; simpl; [apply IH | reflexivity ..].
Qed.

Lemma add_link_length (writer writer' : PdfWriter) (r : TocLink) :
  add_link writer r = Returns writer' ->
  length (w_pages writer') = length (w_pages writer).
Proof.
  unfold add_link. intros H.
  match type of H with
  | (if ?b then _ else _) = _ => destruct b; [| now inversion H]
  end.
  destruct (Py.getitem (w_pages writer) (1 + toc_page r)) as [p| |];
    simpl in H; try discriminate.
  unfold add_annotation in H.
  repeat match type of H with
         | context [if ?b then _ else _] => destruct b; simpl in H
         end;
    inversion H; subst; simpl; try reflexivity; apply length_alter.
Qed.

Lemma add_links_length (links : list TocLink) :
  forall writer writer' : PdfWriter,
  add_links writer links = Returns writer' ->
  length (w_pages writer') = length (w_pages writer).
Proof.
  induction links as [|r rest IH]; intros writer writer' H.
  - now inversion H.
  - cbn [add_links] in H.
    destruct (add_link writer r) as [w1| |] eqn:Hstep; try discriminate.
    rewrite bind_returns in H.
    rewrite (IH _ _ H). eapply add_link_length. exact Hstep.
Qed.

Lemma add_link_out_of_range (writer : PdfWriter) (r : TocLink) :
  out_of_range (Z.of_nat (length (w_pages writer))) r ->
  add_link writer r = Returns writer.
Proof.
  intros Hout. unfold add_link.
  destruct (target_page r - 1 <? Z.of_nat (length (w_pages writer))) eqn:Ht;
    destruct (1 + toc_page r <? Z.of_nat (length (w_pages writer))) eqn:Hk;
    simpl; try reflexivity.
  exfalso. apply Hout. split; now apply Z.ltb_lt.
Qed.

Lemma add_links_skip (l1 l2 : list TocLink) (r : TocLink) (writer : PdfWriter) :
  out_of_range (Z.of_nat (length (w_pages writer))) r ->
  add_links writer (l1 ++ r :: l2) = add_links writer (l1 ++ l2).
Proof.
  intros Hout. rewrite !add_links_app.
  destruct (add_links writer l1) as [w1| |] eqn:H1; try reflexivity.
  rewrite !bind_returns. cbn [add_links].
  rewrite add_link_out_of_range; [reflexivity |].
  now rewrite (add_links_length _ _ _ H1).
Qed.

Lemma add_links_to_pdf_readable (fs : gmap string File)
    (pdf_path output_path : string) (doc : Document) (ps : list PageObject)
    (links : list TocLink) :
  fs !! pdf_path = Some (Pdf doc) ->
  pages doc = Some <$> ps ->
  add_links_to_pdf (Some links) fs pdf_path output_path
  = (writer ← add_links {| w_pages := ps; w_outline := [] |} links;
     mret (write fs output_path writer)).
Proof.
  intros Hfile Hpages. unfold add_links_to_pdf, PdfReader.
  rewrite Hfile, bind_returns, Hpages, add_pages_readable, bind_returns.
  simpl. now destruct links.
Qed.

(** C8: on a readable document and link records with 0-based
    table-of-contents page indices, the pass returns and writes a document
    with as many pages as the input; page by page, in order, the output page
    has the box and the content of the input page and its annotations
    extended at the end.  A record with an index out of range can be
    removed from the list without changing the result. *)
Theorem link_injection_keeps_pages (fs : gmap string File)
    (pdf_path output_path : string) (doc : Document) (ps : list PageObject)
    (links : list TocLink) :
  fs !! pdf_path = Some (Pdf doc) ->
  pages doc = Some <$> ps ->
  Forall (fun r => 0 <= toc_page r) links ->
  exists ps' : list PageObject,
    add_links_to_pdf (Some links) fs pdf_path output_path
      = Returns (<[output_path := Pdf {| pages := Some <$> ps';
                                         outline := [] |}]> fs) /\
    length ps' = length ps /\
    Forall2 (fun p p' =>
               mediabox p' = mediabox p /\
               contents p' = contents p /\
               annotations p `prefix_of` annotations p') ps ps' /\
    forall (l1 l2 : list TocLink) (r : TocLink),
      links = l1 ++ r :: l2 ->
      out_of_range (Z.of_nat (length ps)) r ->
      add_links_to_pdf (Some (l1 ++ l2)) fs pdf_path output_path
      = add_links_to_pdf (Some links) fs pdf_path output_path.
Proof.
  intros Hfile Hpages Hall.
  pose proof (add_links_pages links {| w_pages := ps; w_outline := [] |} Hall)
    as Hrun. cbn [w_pages w_outline] in Hrun.
  exists (imap (fun k page =>
                  foldl (fun p r => with_link (Z.of_nat (length ps)) r k p)
                        page links) ps).
  split; [| split; [| split]].
  - rewrite (add_links_to_pdf_readable fs pdf_path output_path doc ps links
               Hfile Hpages), Hrun.
    reflexivity.
  - apply length_imap.
  - apply Forall2_same_length_lookup. split; [now rewrite length_imap |].
    intros i p p' Hp Hp'. rewrite list_lookup_imap, Hp in Hp'.
    inversion Hp'; subst p'; clear Hp'.
    rewrite with_links_annotations. simpl.
    repeat split. now apply prefix_app_r.
  - intros l1 l2 r -> Hout.
    rewrite !(add_links_to_pdf_readable fs pdf_path output_path doc ps)
      by assumption.
    now rewrite add_links_skip.
Qed.

(** ** Further properties of the watermarker *)

(** Propositional reasoning that leaves the parameters of the watermarker
    out of the proof. *)
Ltac propositional :=
  try clear stringWidth; try clear math_cos; try clear math_sin;
  try clear watermark_text; try clear opacity; try clear today;
  try clear annotation_error; tauto.

(** *** Removal of duplicates *)

Lemma unique_from_elem (l : list string) :
  forall (seen : list string) (x : string),
  x ∈ unique_from seen l <-> x ∈ l /\ x ∉ seen.
Proof.
  induction l as [|y l IH]; intros seen x; simpl.
  - split; [intros H; inversion H | intros [H _]; inversion H].
  - case_bool_decide as Hy.
    + rewrite IH, elem_of_cons. split; [propositional |].
      intros [[-> | H] Hx]; [contradiction | propositional].
    + rewrite !elem_of_cons, IH, elem_of_cons.
      destruct (decide (x = y)) as [-> | Hne]; propositional.
Qed.

Lemma unique_from_NoDup (l : list string) :
  forall seen : list string, NoDup (unique_from seen l).
Proof.
  induction l as [|y l IH]; intros seen; simpl; [constructor |].
  case_bool_decide; [apply IH |].
  apply NoDup_cons. split; [| apply IH].
  rewrite unique_from_elem, elem_of_cons. propositional.
Qed.

Lemma unique_from_sublist (l : list string) :
  forall seen : list string, unique_from seen l `sublist_of` l.
Proof.
  induction l as [|y l IH]; intros seen; simpl; [constructor |].
  case_bool_decide; [apply sublist_cons | apply sublist_skip]; apply IH.
Qed.

Lemma unique_from_id (l : list string) :
  forall seen : list string,
  NoDup l -> (forall x, x ∈ l -> x ∉ seen) -> unique_from seen l = l.
Proof.
  induction l as [|y l IH]; intros seen Hnd Hseen; [reflexivity |].
  apply NoDup_cons in Hnd as [Hy Hnd]. simpl.
  rewrite bool_decide_false by (apply Hseen; left).
  f_equal. apply IH; [exact Hnd |].
  intros x Hx. rewrite elem_of_cons. intros [-> | Hin]; [contradiction |].
  apply (Hseen x); [now right | exact Hin].
Qed.

(** X1: the duplicate-removal loop of [process_folder] returns a list
    without repetition that has the members of its input, in the order of
    the input, and returns a list without repetition as it is. *)
Theorem duplicates_removed_in_order (l : list string) :
  NoDup (unique_from [] l) /\
  (forall x, x ∈ unique_from [] l <-> x ∈ l) /\
  unique_from [] l `sublist_of` l /\
  (NoDup l -> unique_from [] l = l).
Proof.
  split; [apply unique_from_NoDup |]. split; [| split].
  - intros x. rewrite unique_from_elem. split; [propositional |].
    intros H. split; [exact H |]. intros Hnil. inversion Hnil.
  - apply unique_from_sublist.
  - intros Hnd. apply unique_from_id; [exact Hnd |].
    intros x _ Hnil. inversion Hnil.
Qed.

(** *** What [watermark_pdf] returns *)

Lemma watermark_pages_outline (fuel : nat) (slots : list (option PageObject)) :
  forall writer writer' : PdfWriter,
  watermark_pages fuel writer slots = Returns writer' ->
  w_outline writer' = w_outline writer.
Proof.
  induction slots as [|slot rest IH]; intros writer writer' H.
  - now inversion H.
  - cbn [watermark_pages] in H.
    destruct (read_page slot) as [page| |]; try discriminate.
    rewrite bind_returns in H.
    destruct (watermark_page fuel page) as [page'| |]; try discriminate.
    rewrite bind_returns in H. now rewrite (IH _ _ H).
Qed.

Lemma watermark_pdf_cases (fuel : nat) (fs : gmap string File)
    (input_path output_path : string) :
  match watermark_pdf fuel fs input_path output_path with
  | Returns (ok, fs') =>
      if ok
      then readable fs input_path = true /\
           exists ps : list PageObject,
             fs' = <[output_path := Pdf {| pages := Some <$> ps;
                                           outline := [] |}]> fs
      else fs' = fs
  | Raises _ => False
  | Diverges => readable fs input_path = true
  end.
Proof.
  unfold watermark_pdf, PdfReader, readable.
  destruct (fs !! input_path) as [[|doc]|]; simpl; try reflexivity.
  destruct (watermark_pages fuel empty_writer (pages doc))
    as [writer| |] eqn:Hrun; simpl; try reflexivity.
  split; [reflexivity |]. exists (w_pages writer). unfold write.
  now rewrite (watermark_pages_outline _ _ _ _ Hrun).
Qed.

(** X2: [watermark_pdf] lets no exception out.  When it returns [True] the
    input was readable and the only file written is [output_path], a
    document without outline; when it returns [False] the files are as
    before; an input that cannot be opened gives [False]. *)
Theorem watermark_pdf_contains_its_failures (fuel : nat)
    (fs : gmap string File) (input_path output_path : string) :
  match watermark_pdf fuel fs input_path output_path with
  | Returns (ok, fs') =>
      if ok
      then readable fs input_path = true /\
           exists ps : list PageObject,
             fs' = <[output_path := Pdf {| pages := Some <$> ps;
                                           outline := [] |}]> fs
      else fs' = fs
  | Raises _ => False
  | Diverges => readable fs input_path = true
  end /\
  (readable fs input_path = false ->
   watermark_pdf fuel fs input_path output_path = Returns (false, fs)).
Proof.
  split; [apply watermark_pdf_cases |].
  unfold watermark_pdf, PdfReader, readable.
  now destruct (fs !! input_path) as [[|doc]|].
Qed.

(** *** The watermarking loops *)

Lemma contained_bind {A B : Type} (Q : A -> Prop) (R : B -> Prop)
    (m : outcome A) (f : A -> outcome B) :
  contained Q m -> (forall a, Q a -> contained R (f a)) ->
  contained R (m ≫= f).
Proof. destruct m as [a| |]; simpl; [intros H Hf; now apply Hf | easy ..]. Qed.

Lemma contained_impl {A : Type} (Q R : A -> Prop) (o : outcome A) :
  (forall a, Q a -> R a) -> contained Q o -> contained R o.
Proof. destruct o; simpl; auto. Qed.

Lemma grows_refl (P : string -> Prop) (st : gmap string File * list string) :
  grows P st st.
Proof.
  exists []. rewrite app_nil_r. repeat split; auto.
Qed.

Lemma grows_trans (P : string -> Prop)
    (st1 st2 st3 : gmap string File * list string) :
  grows P st1 st2 -> grows P st2 st3 -> grows P st1 st3.
Proof.
  intros (new1 & E1 & N1 & F1 & U1) (new2 & E2 & N2 & F2 & U2).
  exists (new1 ++ new2). split; [| split; [| split]].
  - now rewrite E2, E1, app_assoc.
  - auto.
  - apply Forall_app. split; [| exact F2].
    rewrite Forall_forall in F1, F2 |- *. intros p Hp.
    destruct (F1 p Hp) as [HP Hr]. split; [exact HP |].
    destruct (decide (p ∈ new2)) as [Hin | Hout].
    + apply (F2 p Hin).
    + destruct Hr as (doc & ps & Hdoc & Hps). exists doc, ps.
      now rewrite (U2 p Hout).
  - intros p Hp. rewrite elem_of_app in Hp.
    rewrite U2, U1; [reflexivity | |]; intros H; apply Hp; auto.
Qed.

Lemma grows_impl (P Q : string -> Prop)
    (st st' : gmap string File * list string) :
  (forall p, P p -> Q p) -> grows P st st' -> grows Q st st'.
Proof.
  intros HPQ (new & E & N & F & U). exists new. repeat split; auto.
  eapply Forall_impl; [exact F |]. intros p [HP Hr]. auto.
Qed.

Lemma process_file_grows (fuel : nat) (temp_dir folder_name : string)
    (st : gmap string File * list string) (pdf_file : string) :
  contained (grows (fun p => p = watermarked_path temp_dir folder_name pdf_file)
                   st)
            (process_file fuel temp_dir folder_name st pdf_file).
Proof.
  destruct st as [fs l]. unfold process_file.
  fold (watermarked_path temp_dir folder_name pdf_file).
  set (out := watermarked_path temp_dir folder_name pdf_file).
  case_bool_decide as Hin; [apply grows_refl |].
  pose proof (watermark_pdf_cases fuel fs pdf_file out) as Hcases.
  destruct (watermark_pdf fuel fs pdf_file out) as [[ok fs']| |];
    simpl; [| exact Hcases | exact I].
  destruct ok.
  - destruct Hcases as [_ [ps ->]]. exists [out]. simpl.
    split; [reflexivity |]. split; [| split].
    + intros Hnd. apply NoDup_app. split; [exact Hnd |].
      split; [| apply NoDup_singleton].
      intros x Hx Hx'. apply list_elem_of_singleton in Hx'. now subst x.
    + constructor; [| constructor]. split; [reflexivity |].
      eexists _, ps. rewrite lookup_insert_eq. split; reflexivity.
    + intros p Hp. apply lookup_insert_ne. intros ->. apply Hp. now left.
  - subst fs'. apply grows_refl.
Qed.

Lemma process_files_grows (fuel : nat) (temp_dir folder_name : string)
    (pdf_files : list string) :
  forall st : gmap string File * list string,
  contained (grows (fun p => exists pdf_file, pdf_file ∈ pdf_files /\
                        p = watermarked_path temp_dir folder_name pdf_file) st)
            (process_files fuel temp_dir folder_name st pdf_files).
Proof.
  induction pdf_files as [|pdf_file rest IH]; intros st.
  - apply grows_refl.
  - cbn [process_files]. eapply contained_bind.
    + apply process_file_grows.
    + intros st' Hstep. eapply contained_impl; [| apply IH].
      intros st'' Hrest. eapply grows_trans.
      * eapply grows_impl; [| exact Hstep].
        intros p ->. exists pdf_file. split; [now left | reflexivity].
      * eapply grows_impl; [| exact Hrest].
        intros p (f & Hf & ->). exists f. split; [now right | reflexivity].
Qed.

Lemma process_folders_grows (fuel : nat) (temp_dir : string)
    (folders : list (string * list string)) :
  forall st : gmap string File * list string,
  contained (grows (watermarked_from temp_dir folders) st)
            (process_folders fuel temp_dir st folders).
Proof.
  induction folders as [|[folder_name pdf_files] rest IH]; intros st.
  - apply grows_refl.
  - assert (Hrest : forall p, watermarked_from temp_dir rest p ->
              watermarked_from temp_dir ((folder_name, pdf_files) :: rest) p).
    { intros p (f & fs0 & x & H1 & H2 & H3 & ->).
      exists f, fs0, x. repeat split; auto. now right. }
    cbn [process_folders]. case_bool_decide as Hex.
    + eapply contained_impl; [| apply IH].
      intros st'. now apply grows_impl.
    + eapply contained_bind; [apply process_files_grows |].
      intros st' Hstep. eapply contained_impl; [| apply IH].
      intros st'' Hnext. eapply grows_trans.
      * eapply grows_impl; [| exact Hstep].
        intros p (x & Hx & ->). exists folder_name, pdf_files, x.
        repeat split; auto. now left.
      * eapply grows_impl; [| exact Hnext]. exact Hrest.
Qed.

(** X3: the watermarking loops of [process_folder] let no exception out.
    When they return, [watermarked_pdfs] has no repetition (the removal of
    duplicates that follows changes nothing), each of its paths is
    [temp_dir / "<folder>_<stem>_watermarked.pdf"] for a file of a folder
    that is not excluded and holds a document that can be read to its last
    page, and every file whose path is not in the list is as it was before
    the run. *)
Theorem watermarking_loops_invariant (fuel : nat) (temp_dir : string)
    (fs : gmap string File) (folders : list (string * list string)) :
  match process_folders fuel temp_dir (fs, []) folders with
  | Returns (fs', watermarked_pdfs) =>
      NoDup watermarked_pdfs /\
      unique_from [] watermarked_pdfs = watermarked_pdfs /\
      Forall (fun p => watermarked_from temp_dir folders p /\ whole fs' p)
             watermarked_pdfs /\
      forall p, p ∉ watermarked_pdfs -> fs' !! p = fs !! p
  | Raises _ => False
  | Diverges => True
  end.
Proof.
  pose proof (process_folders_grows fuel temp_dir folders (fs, [])) as H.
  destruct (process_folders fuel temp_dir (fs, []) folders)
    as [[fs' l]| |]; simpl in H; [| exact H | exact I].
  destruct H as (new & E & N & F & U). simpl in *. subst l.
  assert (Hnd : NoDup new) by (apply N; constructor).
  split; [exact Hnd |]. split; [| split; [exact F | exact U]].
  apply unique_from_id; [exact Hnd |]. intros x _ Hx. inversion Hx.
Qed.

(** *** The overlay renderer *)

Lemma while_invariant {S : Type} (Inv : S -> Prop) (cond : S -> bool)
    (body : S -> outcome S) :
  (forall s s', Inv s -> cond s = true -> body s = Returns s' -> Inv s') ->
  forall (fuel : nat) (s r : S),
  Inv s -> while fuel cond body s = Returns r -> Inv r /\ cond r = false.
Proof.
  intros Hstep fuel.
  induction fuel as [|n IH]; intros s r Hs Hrun; simpl in Hrun;
    destruct (cond s) eqn:Hc; try discriminate;
    try (inversion Hrun; subst r; now split).
  destruct (body s) as [s'| |] eqn:Hb; try discriminate.
  rewrite bind_returns in Hrun. eapply IH; [| exact Hrun].
  eapply Hstep; eassumption.
Qed.

Lemma while_raises {S : Type} (cond : S -> bool) (body : S -> outcome S)
    (e : exn) :
  (forall s, body s <> Raises e) ->
  forall (fuel : nat) (s : S), while fuel cond body s <> Raises e.
Proof.
  intros Hbody fuel.
  induction fuel as [|n IH]; intros s; simpl;
    destruct (cond s); try discriminate.
  destruct (body s) as [s'| |] eqn:Hb; simpl; try discriminate.
  - apply IH.
  - intros H. inversion H; subst. now apply (Hbody s).
Qed.

Lemma scale_down_range (fuel : nat) (maxw : float) (font_size : Z)
    (text_width : float) :
  scale_down fuel maxw = Returns (font_size, text_width) ->
  min_font_size <= font_size <= max_font_size /\
  text_width = stringWidth watermark_text HelveticaBold font_size /\
  (Py.gt text_width maxw = false \/ font_size = min_font_size).
Proof.
  intros Hrun. unfold scale_down in Hrun.
  apply (while_invariant
           (fun s => min_font_size <= fst s <= max_font_size /\
                     snd s = stringWidth watermark_text HelveticaBold (fst s)))
    in Hrun.
  - destruct Hrun as [[Hrange Hw] Hexit]. simpl in *.
    split; [exact Hrange |]. split; [exact Hw |].
    unfold scale_cond in Hexit. simpl in Hexit.
    apply andb_false_iff in Hexit as [Hfit | Hmin]; [now left | right].
    apply Z.ltb_ge in Hmin. lia.
  - intros [fs tw] s' [Hrange Hw] Hc Hb. unfold scale_cond in Hc.
    apply andb_true_iff in Hc as [_ Hc]. apply Z.ltb_lt in Hc.
    unfold scale_body in Hb. inversion Hb; subst s'. simpl in *.
    split; [lia | reflexivity].
  - simpl. unfold min_font_size, max_font_size. split; [lia | reflexivity].
Qed.

Lemma truncate_result (fuel : nat) (maxw : float) (font_size : Z)
    (text_width : float) (text : string) (text_width' : float) :
  truncate fuel maxw font_size text_width = Returns (text, text_width') ->
  (text = watermark_text /\ text_width' = text_width /\
   (Py.gt text_width maxw = false \/ Py.len watermark_text <= 10)) \/
  (text = truncate_step watermark_text /\
   10 < Py.len watermark_text /\
   text_width' = stringWidth text HelveticaBold font_size /\
   Py.gt text_width' maxw = false).
Proof.
  intros Hrun. unfold truncate in Hrun.
  apply (while_invariant
           (fun s => fst s = watermark_text /\ snd s = text_width \/
                     10 < Py.len watermark_text /\
                     fst s = truncate_step watermark_text /\
                     snd s = stringWidth (fst s) HelveticaBold font_size))
    in Hrun.
  - destruct Hrun as [Hinv Hexit]. unfold truncate_cond in Hexit.
    simpl in *. apply andb_false_iff in Hexit.
    destruct Hinv as [[-> ->] | (Hlen & -> & ->)].
    + left. split; [reflexivity |]. split; [reflexivity |].
      destruct Hexit as [Hfit | Hshort]; [now left | right].
      now apply Z.ltb_ge in Hshort.
    + right. split; [reflexivity |]. split; [exact Hlen |].
      split; [reflexivity |].
      destruct Hexit as [Hfit | Hshort]; [exact Hfit |].
      apply Z.ltb_ge in Hshort. unfold Py.len in *.
      rewrite truncate_step_length in Hshort; lia.
  - intros [t w] s' Hinv Hc Hb. unfold truncate_cond in Hc.
    apply andb_true_iff in Hc as [_ Hc]. apply Z.ltb_lt in Hc.
    unfold truncate_body in Hb. inversion Hb; subst s'. simpl in *. right.
    destruct Hinv as [[-> ->] | (Hlen & -> & ->)].
    + split; [exact Hc |]. split; reflexivity.
    + split; [exact Hlen |]. rewrite truncate_step_idempotent.
      split; reflexivity.
  - left. split; reflexivity.
Qed.

(** What [fit_text] has established when it returns. *)
Lemma fit_text_result (fuel : nat) (width : float) (font_size : Z)
    (text : string) (text_width : float) :
  fit_text fuel width = Returns (font_size, text, text_width) ->
  exists maxw : float,
    max_allowed_width width = Returns maxw /\
    min_font_size <= font_size <= max_font_size /\
    text_width = stringWidth text HelveticaBold font_size /\
    (text = watermark_text /\ Py.gt text_width maxw = false \/
     text = watermark_text /\ font_size = min_font_size /\
       Py.len watermark_text <= 10 \/
     text = truncate_step watermark_text /\ font_size = min_font_size /\
       10 < Py.len watermark_text /\ Py.gt text_width maxw = false).
Proof.
  unfold fit_text. intros H.
  destruct (max_allowed_width width) as [maxw| |]; try discriminate.
  rewrite bind_returns in H. exists maxw. split; [reflexivity |].
  destruct (scale_down fuel maxw) as [[fs tw]| |] eqn:Hscale;
    try discriminate.
  destruct (scale_down_range _ _ _ _ Hscale) as (Hrange & Htw & Hexit).
  rewrite bind_returns in H. simpl in H.
  destruct (Py.gt tw maxw) eqn:Hgt.
  - destruct Hexit as [Hfit | Hmin]; [discriminate |].
    destruct (truncate fuel maxw fs tw) as [[t w]| |] eqn:Htr;
      try discriminate.
    simpl in H. inversion H; subst font_size text text_width.
    split; [exact Hrange |].
    destruct (truncate_result _ _ _ _ _ _ Htr)
      as [(-> & -> & Hwhy) | (-> & Hlen & Hw & Hfit)].
    + split; [exact Htw |]. right. left.
      destruct Hwhy as [Hfit | Hshort]; [congruence |].
      repeat split; assumption.
    + split; [exact Hw |]. right. right. repeat split; assumption.
  - simpl in H. inversion H; subst font_size text text_width.
    split; [exact Hrange |]. split; [exact Htw |]. left. now split.
Qed.

(** X4: the overlay that [create_watermark_pdf] returns has the size asked
    for, no annotation and four stamps, at 20, 40, 60 and 80 percent of the
    height, that share one horizontal translation, the rotation of 30
    degrees, the bold face, the red fill with the configured opacity, one
    font size between 8 and 24 and one text.  The text is the watermark
    text, or the watermark text of more than 10 characters with its last 3
    characters replaced by the ellipsis; it fits the allowed width of the
    page unless it is the whole watermark text of at most 10 characters
    at 8pt. *)
Theorem overlay_layout (fuel : nat) (width height : float)
    (overlay : PageObject) :
  create_watermark_pdf fuel width height = Returns overlay ->
  exists (maxw : float) (font_size : Z) (text : string) (dx dy : float),
    max_allowed_width width = Returns maxw /\
    min_font_size <= font_size <= max_font_size /\
    (text = watermark_text \/
     text = truncate_step watermark_text /\ 10 < Py.len watermark_text) /\
    (Py.gt (stringWidth text HelveticaBold font_size) maxw = false \/
     text = watermark_text /\ font_size = min_font_size /\
       Py.len watermark_text <= 10) /\
    mediabox overlay = (width, height) /\
    annotations overlay = [] /\
    contents overlay =
      (fun y => DrawString {| tr_font := HelveticaBold; tr_size := font_size;
                              tr_fill := red opacity;
                              tr_translate := (dx, y - dy)%float;
                              tr_rotate := 30;
                              tr_pos := (0, 0)%float; tr_text := text |})
      <$> [height * 0.2; height * 0.4; height * 0.6; height * 0.8]%float.
Proof.
  unfold create_watermark_pdf. intros H.
  destruct (fit_text fuel width) as [[[font_size text] text_width]| |] eqn:Hfit;
    try discriminate.
  destruct (fit_text_result _ _ _ _ _ Hfit) as (maxw & Hmax & Hrange & Hw & Hc).
  rewrite bind_returns in H. cbv beta iota zeta in H.
  match type of H with
  | (for_each ?body ?l ≫= _) = _ =>
      destruct (for_each body l) as [stamps| |] eqn:Hstamps; try discriminate
  end.
  rewrite bind_returns in H. inversion H; subst overlay; clear H.
  eapply for_each_pure in Hstamps; cycle 1.
  { intros y b Hb.
    destruct (canvas_translate _ _) in Hb; try discriminate Hb.
    rewrite bind_returns in Hb. inversion Hb. reflexivity. }
  cbn [mediabox contents annotations]. rewrite Hstamps.
  exists maxw, font_size, text. do 2 eexists.
  split; [exact Hmax |]. split; [exact Hrange |].
  split; [| split; [| repeat split]].
  - destruct Hc as [[-> _] | [[-> _] | (-> & _ & Hlen & _)]]; auto.
  - rewrite <- Hw.
    destruct Hc as [[_ Hf] | [(-> & Hm & Hlen) | (_ & _ & _ & Hf)]]; auto.
Qed.

Lemma fit_text_raises (fuel : nat) (width : float) (e : exn) :
  fit_text fuel width = Raises e <-> max_allowed_width width = Raises e.
Proof.
  unfold fit_text.
  destruct (max_allowed_width width) as [maxw| |]; simpl;
    [| split; intros H; inversion H; reflexivity ..].
  split; [| discriminate]. intros H. exfalso.
  destruct (scale_down fuel maxw) as [[fs tw]| |] eqn:Hscale; simpl in H.
  - destruct (Py.gt tw maxw); [| discriminate].
    destruct (truncate fuel maxw fs tw) as [[t w]| |] eqn:Htr;
      simpl in H; try discriminate.
    inversion H; subst. revert Htr. unfold truncate.
    apply while_raises. intros s. discriminate.
  - inversion H; subst. revert Hscale. unfold scale_down.
    apply while_raises. intros s. discriminate.
  - discriminate.
Qed.

Lemma max_allowed_width_raises (width : float) (e : exn) :
  max_allowed_width width = Raises e <->
  e = ZeroDivisionError /\
  (PrimFloat.eqb width 0 = true \/
   PrimFloat.eqb (PrimFloat.abs (math_cos rotation_rad)
                  + PrimFloat.abs (math_sin rotation_rad) * (24 / width)) 0
   = true).
Proof.
  unfold max_allowed_width, rotation_width_factor, Py.truediv.
  change (Py.float_of_Z max_font_size) with 24%float.
  destruct (PrimFloat.eqb width 0); simpl.
  - split; [intros H; inversion H; auto | intros [-> _]; reflexivity].
  - destruct (PrimFloat.eqb _ 0); simpl.
    + split; [intros H; inversion H; auto | intros [-> _]; reflexivity].
    + split; [discriminate | intros [_ [H | H]]; discriminate].
Qed.

Lemma fp_str_outcome (x : float) :
  match fp_str x with
  | Returns _ => is_finite x = true
  | Raises e => (e = OverflowError \/ e = ValueError) /\ is_finite x = false
  | Diverges => False
  end.
Proof.
  unfold fp_str, is_finite. destruct (Prim2SF x); simpl; auto.
Qed.

Lemma canvas_translate_outcome (dx dy : float) :
  match canvas_translate dx dy with
  | Returns _ => is_finite dx = true /\ is_finite dy = true
  | Raises e => e = OverflowError \/ e = ValueError
  | Diverges => False
  end.
Proof.
  unfold canvas_translate.
  pose proof (fp_str_outcome dx) as Hx. pose proof (fp_str_outcome dy) as Hy.
  destruct (fp_str dx) as [[]| |]; simpl; [| apply Hx | exact Hx].
  destruct (fp_str dy) as [[]| |]; simpl; [now split | apply Hy | exact Hy].
Qed.

Lemma for_each_raises {A B : Type} (body : A -> outcome B) (l : list A)
    (e : exn) :
  for_each body l = Raises e -> exists x, x ∈ l /\ body x = Raises e.
Proof.
  induction l as [|x l IH]; simpl; [discriminate |]. intros H.
  destruct (body x) as [b| |] eqn:Hb; try discriminate.
  - rewrite bind_returns in H.
    destruct (for_each body l) as [bs| |]; try discriminate.
    destruct IH as (y & Hy & Hey); [now inversion H |].
    exists y. split; [now right | exact Hey].
  - inversion H; subst. exists x. split; [now left | exact Hb].
Qed.

Lemma for_each_returns {A B : Type} (body : A -> outcome B) (l : list A) :
  forall r : list B,
  for_each body l = Returns r -> Forall2 (fun x b => body x = Returns b) l r.
Proof.
  induction l as [|x l IH]; intros r H; simpl in H.
  - inversion H. constructor.
  - destruct (body x) as [b| |] eqn:Hb; try discriminate.
    rewrite bind_returns in H.
    destruct (for_each body l) as [bs| |]; try discriminate.
    rewrite bind_returns in H. inversion H. constructor; auto.
Qed.

Lemma create_watermark_pdf_zero_division (fuel : nat) (width height : float) :
  create_watermark_pdf fuel width height = Raises ZeroDivisionError <->
  max_allowed_width width = Raises ZeroDivisionError.
Proof.
  rewrite <- (fit_text_raises fuel). unfold create_watermark_pdf.
  destruct (fit_text fuel width) as [[[fs t] w]| |];
    [| split; intros H; inversion H; reflexivity ..].
  rewrite bind_returns. cbv beta iota zeta.
  split; [| discriminate]. intros H. exfalso.
  match type of H with
  | (for_each ?body ?l ≫= _) = _ =>
      destruct (for_each body l) as [stamps| |] eqn:Hstamps;
        try discriminate
  end.
  inversion H; subst. apply for_each_raises in Hstamps as (y & _ & Hy).
  match type of Hy with
  | (canvas_translate ?dx ?dy ≫= _) = _ =>
      pose proof (canvas_translate_outcome dx dy) as Hout;
      destruct (canvas_translate dx dy) as [[]| |]; try discriminate
  end.
  inversion Hy; subst. destruct Hout; discriminate.
Qed.

(** X5: with an opacity that the canvas accepts for the fill colour,
    [create_watermark_pdf] raises [ZeroDivisionError] exactly when the
    page width is zero or the rotation factor
    [|cos 30| + |sin 30| * (24 / width)] is zero, whatever the height and
    the watermark text.  An overlay it returns has stamps whose
    translations are finite numbers.  A document with a page of width
    zero, whose earlier pages are watermarked, is not watermarked:
    [watermark_pdf] returns [False] and leaves the files as they were. *)
Theorem zero_width_page_raises_zero_division (fuel : nat)
    (width height : float) :
  accepted_alpha opacity = true ->
  (create_watermark_pdf fuel width height = Raises ZeroDivisionError <->
   PrimFloat.eqb width 0 = true \/
   PrimFloat.eqb (PrimFloat.abs (math_cos rotation_rad)
                  + PrimFloat.abs (math_sin rotation_rad) * (24 / width)) 0
   = true) /\
  (forall overlay : PageObject,
     create_watermark_pdf fuel width height = Returns overlay ->
     Forall (fun d => exists t : TextRun,
                        d = DrawString t /\
                        is_finite (fst (tr_translate t)) = true /\
                        is_finite (snd (tr_translate t)) = true)
            (contents overlay)) /\
  (PrimFloat.eqb width 0 = true ->
   forall (fs : gmap string File) (input_path output_path : string)
          (doc : Document) (before : list PageObject) (page : PageObject)
          (after : list (option PageObject)),
     fs !! input_path = Some (Pdf doc) ->
     pages doc = (Some <$> before) ++ Some page :: after ->
     mediabox page = (width, height) ->
     Forall (fun p => exists p', watermark_page fuel p = Returns p') before ->
     watermark_pdf fuel fs input_path output_path = Returns (false, fs)).
Proof.
  intros _.
  assert (Hzero : create_watermark_pdf fuel width height
                  = Raises ZeroDivisionError <->
                  PrimFloat.eqb width 0 = true \/
                  PrimFloat.eqb (PrimFloat.abs (math_cos rotation_rad)
                                 + PrimFloat.abs (math_sin rotation_rad)
                                   * (24 / width)) 0 = true).
  { rewrite create_watermark_pdf_zero_division, max_allowed_width_raises.
    split; [intros [_ H]; exact H | now split]. }
  split; [exact Hzero |]. split.
  - unfold create_watermark_pdf. intros overlay H.
    destruct (fit_text fuel width) as [[[fs t] w]| |]; try discriminate.
    rewrite bind_returns in H. cbv beta iota zeta in H.
    match type of H with
    | (for_each ?body ?l ≫= _) = _ =>
        destruct (for_each body l) as [stamps| |] eqn:Hstamps;
          try discriminate
    end.
    rewrite bind_returns in H. inversion H; subst overlay; clear H.
    apply for_each_returns in Hstamps. cbn [contents].
    eapply Forall2_Forall_r; [exact Hstamps |].
    apply Forall_forall. intros y _ d Hd.
    match type of Hd with
    | (canvas_translate ?dx ?dy ≫= _) = _ =>
        pose proof (canvas_translate_outcome dx dy) as Hout;
        destruct (canvas_translate dx dy) as [[]| |]; try discriminate
    end.
    rewrite bind_returns in Hd. inversion Hd. eexists. split; [reflexivity |].
    exact Hout.
  - intros Hwidth fs input_path output_path doc before page after
      Hfile Hpages Hbox Hbefore.
    assert (Hraise : watermark_page fuel page = Raises ZeroDivisionError).
    { unfold watermark_page. rewrite Hbox. cbn [fst snd].
      destruct Hzero as [_ Hzero]. now rewrite Hzero by now left. }
    destruct (watermark_pages_raises fuel before (Some page) after
                empty_writer Hbefore) as [e He].
    { right. now exists page, ZeroDivisionError. }
    unfold watermark_pdf, PdfReader. rewrite Hfile, bind_returns, Hpages, He.
    reflexivity.
Qed.


(** *** The records of the table of contents *)

Lemma toc_entry_fields (st st' : TocState) (info : DocumentInfo) :
  toc_entry st info = Returns st' ->
  exists (code : list Drawing) (r : TocLink),
    code <> [] /\
    toc_links st' = toc_links st ++ [r] /\
    target_page r = page info /\
    toc_page r = page_num st /\
    (can_pages st' = can_pages st ++ [canvas_page code] /\
     can_code st' = [] /\ page_num st' = page_num st + 1 \/
     can_pages st' = can_pages st /\
     can_code st' = code /\ page_num st' = page_num st).
Proof.
  unfold toc_entry. intros H.
  assert (Hh : can_pages (toc_header st (folder info)) = can_pages st /\
               page_num (toc_header st (folder info)) = page_num st /\
               toc_links (toc_header st (folder info)) = toc_links st).
  { unfold toc_header. now case_bool_decide. }
  destruct Hh as (Hp & Hn & Hl).
  destruct A4 as [width height].
  match type of H with
  | context [Py.int ?x] => destruct (Py.int x) as [num_dots| |]
  end; simpl in H; try discriminate.
  match type of H with
  | (if ?b then _ else _) = _ => destruct b
  end; inversion H; subst st'; clear H;
    cbn [can_pages can_code page_num toc_links];
    rewrite Hp, Hn, Hl; do 2 eexists;
    (split; cycle 1;
     [split; [reflexivity |]; split; [reflexivity |]; split; [reflexivity |] |]).
  - left. split; [reflexivity |]. split; reflexivity.
  - intros E. apply app_eq_nil in E as [_ E]. discriminate E.
  - right. split; [reflexivity |]. split; reflexivity.
  - intros E. apply app_eq_nil in E as [_ E]. discriminate E.
Qed.

Lemma canvas_save_length (st : TocState) :
  length (canvas_save st)
  = (length (can_pages st) + if can_code st is [] then 0 else 1)%nat.
Proof.
  unfold canvas_save. destruct (can_code st); [lia |].
  rewrite length_app. reflexivity.
Qed.

Lemma canvas_save_pages (st : TocState)
    (P : PageObject -> Prop) :
  (forall code, P (canvas_page code)) ->
  Forall P (can_pages st) -> Forall P (canvas_save st).
Proof.
  intros HP H. unfold canvas_save. destruct (can_code st); [exact H |].
  apply Forall_app. split; [exact H |]. constructor; [apply HP | constructor].
Qed.

Lemma canvas_save_closed (st : TocState) (P : PageObject -> Prop) :
  Forall P (canvas_save st) -> Forall P (can_pages st).
Proof.
  unfold canvas_save. destruct (can_code st); [easy |].
  intros H. now apply Forall_app in H as [H _].
Qed.

Lemma toc_entry_wf (st st' : TocState) (info : DocumentInfo) :
  toc_entry st info = Returns st' ->
  toc_wf st ->
  toc_wf st' /\
  target_page <$> toc_links st' = (target_page <$> toc_links st) ++ [page info].
Proof.
  intros H (Hnum & Hone & Hbox & Hlinks).
  destruct (toc_entry_fields st st' info H)
    as (code & r & Hcode & Hl & Ht & Hp & Hcase).
  assert (Hlen : length (canvas_save st')
                 = S (length (can_pages st)) /\
                 page_num st <= page_num st' /\
                 page_num st' = Z.of_nat (length (can_pages st')) /\
                 Forall (fun p => mediabox p = A4 /\ annotations p = [])
                        (can_pages st')).
  { apply canvas_save_closed in Hbox. rewrite canvas_save_length.
    destruct Hcase as [(E1 & E2 & E3) | (E1 & E2 & E3)];
      rewrite E1, E2, E3.
    - rewrite length_app. simpl. repeat split; try lia.
      apply Forall_app. split; [exact Hbox |]. now repeat constructor.
    - destruct code; [contradiction |]. repeat split; try lia. exact Hbox. }
  destruct Hlen as (Hlen & Hmono & Hnum' & Hbox').
  split.
  - split; [exact Hnum' |]. split; [lia |]. split.
    + apply canvas_save_pages; [now split | exact Hbox'].
    + rewrite Hl, Hlen. apply Forall_app. split.
      * eapply Forall_impl; [exact Hlinks |]. intros r0 Hr0. simpl in Hr0.
        rewrite canvas_save_length in Hr0.
        destruct (can_code st); lia.
      * constructor; [| constructor]. rewrite Hp. lia.
  - rewrite Hl, fmap_app. simpl. now rewrite Ht.
Qed.

Lemma toc_entries_wf (document_info : list DocumentInfo) :
  forall st st' : TocState,
  toc_entries st document_info = Returns st' ->
  toc_wf st ->
  toc_wf st' /\
  target_page <$> toc_links st'
  = (target_page <$> toc_links st) ++ (page <$> document_info).
Proof.
  induction document_info as [|info rest IH]; intros st st' H Hwf.
  - inversion H; subst st'. split; [exact Hwf |]. simpl.
    now rewrite app_nil_r.
  - cbn [toc_entries] in H.
    destruct (toc_entry st info) as [st1| |] eqn:Hstep; try discriminate.
    rewrite bind_returns in H.
    destruct (toc_entry_wf st st1 info Hstep Hwf) as [Hwf1 Ht1].
    destruct (IH st1 st' H Hwf1) as [Hwf' Ht'].
    split; [exact Hwf' |]. rewrite Ht', Ht1, fmap_cons.
    now rewrite <- app_assoc.
Qed.

Lemma toc_start_wf : toc_wf toc_start.
Proof.
  unfold toc_wf, toc_start. destruct A4 as [width height] eqn:HA4.
  unfold canvas_save. simpl. repeat split; try lia; repeat constructor.
  unfold canvas_page. simpl. now rewrite HA4.
Qed.

(** What [create_table_of_contents] has written and recorded when it
    returns. *)
Lemma create_table_of_contents_result (fs : gmap string File)
    (document_info : list DocumentInfo) (output_path : string) :
  match create_table_of_contents fs document_info output_path with
  | Returns (fs', links, toc_pages) =>
      exists ps : list PageObject,
        fs' = <[output_path := Pdf {| pages := Some <$> ps;
                                      outline := [] |}]> fs /\
        (1 <= length ps)%nat /\
        Forall (fun p => mediabox p = A4 /\ annotations p = []) ps /\
        target_page <$> links = page <$> document_info /\
        Forall (fun r => 0 <= toc_page r < Z.of_nat (length ps)) links /\
        Z.of_nat (length ps) <= toc_pages <= Z.of_nat (length ps) + 1 /\
        header_texts ps = folder <$> run_starts document_info
  | Raises e => e = ValueError
  | Diverges => False
  end.
Proof.
  unfold create_table_of_contents.
  pose proof (toc_entries_outcome document_info toc_start) as Hout.
  destruct (toc_entries toc_start document_info) as [st| |] eqn:Hrun;
    simpl; [| exact Hout ..].
  destruct (toc_entries_wf document_info toc_start st Hrun toc_start_wf)
    as [(Hnum & Hone & Hbox & Hlinks) Ht].
  exists (canvas_save st). split; [reflexivity |].
  split; [exact Hone |]. split; [exact Hbox |].
  split; [exact Ht |]. split; [exact Hlinks |].
  split; [rewrite canvas_save_length, Hnum; destruct (can_code st); lia |].
  rewrite canvas_save_headers, (toc_entries_headers _ _ _ Hrun).
  now rewrite <- starts_from_run_starts.
Qed.

(** X7: [create_table_of_contents] either raises [ValueError] (in [int],
    on a text measurement that is not finite) or writes at least one A4
    page without annotation and records one link per document, in order,
    whose target is the start page of the document and whose page index is
    that of a page it has written.  The page count it stores is the number
    of written pages, or one more when the last entry filled its page. *)
Theorem toc_records_name_written_pages (fs : gmap string File)
    (document_info : list DocumentInfo) (output_path : string) :
  match create_table_of_contents fs document_info output_path with
  | Returns (fs', links, toc_pages) =>
      exists ps : list PageObject,
        fs' = <[output_path := Pdf {| pages := Some <$> ps;
                                      outline := [] |}]> fs /\
        (1 <= length ps)%nat /\
        Forall (fun p => mediabox p = A4 /\ annotations p = []) ps /\
        target_page <$> links = page <$> document_info /\
        Forall (fun r => 0 <= toc_page r < Z.of_nat (length ps)) links /\
        Z.of_nat (length ps) <= toc_pages <= Z.of_nat (length ps) + 1
  | Raises e => e = ValueError
  | Diverges => False
  end.
Proof.
  pose proof (create_table_of_contents_result fs document_info output_path)
    as H.
  destruct (create_table_of_contents fs document_info output_path)
    as [[[fs' links] toc_pages]| |]; [| exact H ..].
  destruct H as (ps & Hfs & Hone & Hbox & Htargets & Hidx & Hcount & _).
  exists ps. repeat split; try assumption; apply Hcount.
Qed.

(** *** The outline written by the bookmark pass *)

Lemma document_node_app (outline more : list OutlineItem) (info : DocumentInfo)
    (item : OutlineItem) :
  document_node outline info item -> document_node (outline ++ more) info item.
Proof.
  intros (Ht & Hp & k & g & Hk & Hg & Hpar & Htitle).
  split; [exact Ht |]. split; [exact Hp |]. exists k, g.
  repeat split; try assumption. now apply lookup_app_l_Some.
Qed.

Lemma lookup_group_entry (outline : list OutlineItem)
    (group item : OutlineItem) :
  ((outline ++ [group]) ++ [item]) !! length outline = Some group.
Proof. rewrite <- app_assoc. now apply list_lookup_middle. Qed.

Lemma bookmark_entry_children (st : PdfWriter * option string * option nat)
    (info : DocumentInfo) :
  bookmark_state_ok st ->
  let st' := bookmark_entry st info in
  bookmark_state_ok st' /\
  exists (new : list OutlineItem) (item : OutlineItem),
    w_outline st'.1.1 = w_outline st.1.1 ++ new /\
    children new = [item] /\
    (length new = if bool_decide (st.1.2 ≠ Some (folder info))
                  then 2%nat else 1%nat) /\
    document_node (w_outline st'.1.1) info item.
Proof.
  destruct st as [[writer current_person] person_bookmark].
  intros Hok. unfold bookmark_state_ok in Hok. simpl in Hok.
  cbv zeta. cbn [fst snd]. unfold bookmark_entry, add_outline_item.
  case_bool_decide as Hnew; simpl.
  - split.
    + intros f Hf. inversion Hf; subst f.
      exists (length (w_outline writer)), (group_node info).
      split; [reflexivity |]. split; [| split; reflexivity].
      simpl. apply lookup_group_entry.
    + eexists [group_node info; _], _.
      split; [now rewrite <- app_assoc |]. split; [reflexivity |].
      split; [reflexivity |]. split; [reflexivity |]. split; [reflexivity |].
      exists (length (w_outline writer)), (group_node info).
      split; [reflexivity |]. split; [| split; reflexivity].
      simpl. apply lookup_group_entry.
  - destruct (Hok (folder info) Hnew) as (k & g & -> & Hg & Hpar & Htitle).
    simpl. split.
    + intros f Hf. rewrite Hnew in Hf. inversion Hf; subst f.
      exists k, g. repeat split; try assumption.
      now apply lookup_app_l_Some.
    + eexists [_], _. split; [reflexivity |]. split; [reflexivity |].
      split; [reflexivity |]. split; [reflexivity |]. split; [reflexivity |].
      exists k, g. repeat split; try assumption.
      now apply lookup_app_l_Some.
Qed.

Lemma bookmark_fold_children (document_info : list DocumentInfo) :
  forall st : PdfWriter * option string * option nat,
  bookmark_state_ok st ->
  let st' := foldl bookmark_entry st document_info in
  exists new : list OutlineItem,
    w_outline st'.1.1 = w_outline st.1.1 ++ new /\
    Forall2 (document_node (w_outline st'.1.1)) document_info (children new) /\
    length new
    = (length (starts_from st.1.2 document_info) + length document_info)%nat.
Proof.
  induction document_info as [|info rest IH]; intros st Hok.
  - exists []. simpl. rewrite app_nil_r. repeat split. constructor.
  - cbn [foldl starts_from].
    destruct (bookmark_entry_children st info Hok)
      as (Hok1 & new1 & item & Hout1 & Hch1 & Hlen1 & Hnode).
    destruct (IH _ Hok1) as (new2 & Hout2 & Hch2 & Hlen2).
    assert (Hcur : (bookmark_entry st info).1.2 = Some (folder info)).
    { destruct st as [[writer cp] pb].
      apply (bookmark_entry_top writer cp pb info). }
    exists (new1 ++ new2). split; [| split].
    + now rewrite Hout2, Hout1, app_assoc.
    + unfold children in *. rewrite filter_app, Hch1. simpl.
      constructor; [| exact Hch2].
      rewrite Hout2. now apply document_node_app.
    + rewrite length_app, Hlen1, Hlen2, Hcur, length_app.
      case_bool_decide; simpl; lia.
Qed.

(** X8: the outline that [add_bookmarks] builds on a writer without
    outline starts with the two fixed entries and has, in the order of
    [document_info], one child entry per document: it carries the display
    name of the document and its start page minus 1, and its parent is a
    top-level entry titled with the group of the document.  The outline has
    two entries, one per group run and one per document, and the pages of
    the writer are untouched. *)
Theorem outline_has_one_child_per_document (ps : list PageObject)
    (document_info : list DocumentInfo) :
  let writer :=
    add_bookmarks {| w_pages := ps; w_outline := [] |} document_info in
  w_pages writer = ps /\
  take 2 (w_outline writer)
  = [ {| ol_title := "Page de Titre"; ol_page := 0; ol_parent := None |};
      {| ol_title := "Table des Matières"; ol_page := 1;
         ol_parent := None |} ] /\
  Forall2 (document_node (w_outline writer)) document_info
          (children (w_outline writer)) /\
  length (w_outline writer)
  = (2 + length (run_starts document_info) + length document_info)%nat.
Proof.
  cbv zeta. unfold add_bookmarks, add_outline_item. simpl.
  match goal with
  | |- context [foldl bookmark_entry ?s document_info] =>
      pose proof (bookmark_fold_children document_info s) as H;
      pose proof (bookmark_fold_top document_info s.1.1 None None) as Htop;
      cbv zeta in H, Htop; simpl in H, Htop;
      destruct (foldl bookmark_entry s document_info)
        as [[writer' current'] bookmark']
  end.
  simpl in *. destruct Htop as [_ Hpages].
  destruct H as (new & Hout & Hch & Hlen); [intros f Hf; discriminate Hf |].
  rewrite Hout. split; [exact Hpages |]. split; [reflexivity |].
  split.
  - rewrite <- Hout. unfold children. rewrite Hout.
    rewrite filter_cons, filter_cons. simpl. rewrite <- Hout.
    unfold children in Hch. exact Hch.
  - simpl. rewrite Hlen, starts_from_run_starts. lia.
Qed.

(** *** Concatenation *)

Lemma readable_prefix_whole (ps : list PageObject) :
  readable_prefix (Some <$> ps) = ps.
Proof. induction ps as [|p ps IH]; simpl; [reflexivity | now f_equal]. Qed.

Lemma readable_prefix_cut (before : list PageObject)
    (after : list (option PageObject)) :
  readable_prefix ((Some <$> before) ++ None :: after) = before.
Proof. induction before as [|p ps IH]; simpl; [reflexivity | now f_equal]. Qed.

Lemma add_readable_pages_prefix (slots : list (option PageObject)) :
  forall writer : PdfWriter,
  add_readable_pages writer slots
  = {| w_pages := w_pages writer ++ readable_prefix slots;
       w_outline := w_outline writer |}.
Proof.
  induction slots as [|[page|] rest IH]; intros [ps outline]; simpl;
    try now rewrite app_nil_r.
  rewrite IH. simpl. now rewrite <- app_assoc.
Qed.

Lemma try_add_document_pages (fs : gmap string File) (writer : PdfWriter)
    (pdf_path : string) :
  try_add_document fs writer pdf_path
  = {| w_pages := w_pages writer ++ document_pages fs pdf_path;
       w_outline := w_outline writer |}.
Proof.
  unfold try_add_document, document_pages, PdfReader.
  destruct (fs !! pdf_path) as [[|doc]|]; simpl;
    try (destruct writer; simpl; now rewrite app_nil_r).
  apply add_readable_pages_prefix.
Qed.

Lemma add_documents_pages (fs : gmap string File) (pdf_paths : list string) :
  forall writer : PdfWriter,
  foldl (try_add_document fs) writer pdf_paths
  = {| w_pages := w_pages writer ++ mjoin (document_pages fs <$> pdf_paths);
       w_outline := w_outline writer |}.
Proof.
  induction pdf_paths as [|pdf_path rest IH]; intros writer; simpl.
  - destruct writer; simpl; now rewrite app_nil_r.
  - rewrite IH, try_add_document_pages. simpl. now rewrite <- app_assoc.
Qed.

Lemma concatenate_pages (fs : gmap string File)
    (title_temp toc_temp : string) (pdf_paths : list string) :
  concatenate fs title_temp toc_temp pdf_paths
  = {| w_pages := document_pages fs title_temp ++ document_pages fs toc_temp
                  ++ mjoin (document_pages fs <$> pdf_paths);
       w_outline := [] |}.
Proof.
  unfold concatenate.
  rewrite add_documents_pages, !try_add_document_pages. simpl.
  now rewrite <- app_assoc.
Qed.

(** X9: the concatenation loop of [combine_pdfs_with_toc] puts into the
    writer the title page and the table of contents and then, for each path
    in order, the pages of its document up to the first page that cannot be
    taken out of [reader.pages]: nothing for a file that cannot be opened,
    all pages for a document that can be read to the end, and the pages
    before the first unreadable one otherwise (the pages added before the
    exception stay in the writer). *)
Theorem concatenation_takes_readable_prefixes (fs : gmap string File)
    (title_temp toc_temp : string) (pdf_paths : list string) :
  concatenate fs title_temp toc_temp pdf_paths
  = {| w_pages := document_pages fs title_temp ++ document_pages fs toc_temp
                  ++ mjoin (document_pages fs <$> pdf_paths);
       w_outline := [] |} /\
  forall pdf_path : string,
    match fs !! pdf_path with
    | Some (Pdf doc) =>
        (forall ps, pages doc = Some <$> ps ->
                    document_pages fs pdf_path = ps) /\
        (forall before after,
           pages doc = (Some <$> before) ++ None :: after ->
           document_pages fs pdf_path = before)
    | _ => document_pages fs pdf_path = []
    end.
Proof.
  split; [apply concatenate_pages |].
  intros pdf_path. unfold document_pages.
  destruct (fs !! pdf_path) as [[|doc]|]; try reflexivity.
  split.
  - intros ps ->. apply readable_prefix_whole.
  - intros before after ->. apply readable_prefix_cut.
Qed.

(** *** Start pages and positions *)

Lemma document_pages_whole (fs : gmap string File) (pdf_path : string) :
  whole fs pdf_path ->
  exists doc : Document,
    fs !! pdf_path = Some (Pdf doc) /\
    pages doc = Some <$> document_pages fs pdf_path.
Proof.
  intros (doc & ps & Hdoc & Hps). exists doc. split; [exact Hdoc |].
  unfold document_pages. now rewrite Hdoc, Hps, readable_prefix_whole.
Qed.

Lemma entries_from_whole (fs : gmap string File) (pdf_paths : list string) :
  Forall (whole fs) pdf_paths ->
  forall (current_page : Z) (i : nat) (pdf_path : string),
  pdf_paths !! i = Some pdf_path ->
  entries_from fs current_page pdf_paths !! i
  = Some {| folder := folder_name_of pdf_path;
            document := document_name_of pdf_path;
            page := current_page
                    + Z.of_nat (length (mjoin (document_pages fs
                                                 <$> take i pdf_paths)));
            num_pages := Z.of_nat (length (document_pages fs pdf_path)) |}.
Proof.
  induction 1 as [|p rest Hp Hrest IH]; intros current_page i pdf_path Hi;
    [discriminate |].
  destruct (document_pages_whole fs p Hp) as (doc & Hdoc & Hps).
  cbn [entries_from]. unfold PdfReader. rewrite Hdoc.
  assert (Hlen : length (pages doc) = length (document_pages fs p))
    by now rewrite Hps, length_fmap.
  destruct i as [|i]; simpl in Hi.
  - inversion Hi; subst p. simpl. now rewrite Hlen, Z.add_0_r.
  - cbn [lookup list_lookup]. rewrite (IH _ i pdf_path Hi).
    cbn [take fmap list_fmap mjoin list_join].
    now rewrite length_app, Hlen, Nat2Z.inj_add, Z.add_assoc.
Qed.

(** X10: when every input can be read to its last page, the entry of each
    document carries the group and the display name computed from its
    path and its number of pages, and the document's pages stand in the
    assembled document at the 0-based position [page - 1 + drift], where
    [page] is the start page of the entry and [drift] is the number of
    pages actually put before the documents (title page and table of
    contents) minus the number assumed by the analysis, 1 plus the
    estimated number of table-of-contents pages. *)
Theorem documents_start_at_page_plus_drift (fs : gmap string File)
    (title_temp toc_temp : string) (pdf_paths : list string) (i : nat)
    (pdf_path : string) :
  Forall (whole fs) pdf_paths ->
  pdf_paths !! i = Some pdf_path ->
  exists (e : DocumentInfo) (before after : list PageObject),
    (analyze_documents fs pdf_paths).1 !! i = Some e /\
    folder e = folder_name_of pdf_path /\
    document e = document_name_of pdf_path /\
    num_pages e = Z.of_nat (length (document_pages fs pdf_path)) /\
    w_pages (concatenate fs title_temp toc_temp pdf_paths)
    = before ++ document_pages fs pdf_path ++ after /\
    Z.of_nat (length before)
    = page e - 1
      + (Z.of_nat (length (document_pages fs title_temp)
                   + length (document_pages fs toc_temp))
         - (1 + estimated_toc_pages pdf_paths)).
Proof.
  intros Hwhole Hi.
  eexists _, (document_pages fs title_temp ++ document_pages fs toc_temp
              ++ mjoin (document_pages fs <$> take i pdf_paths)),
    (mjoin (document_pages fs <$> drop (S i) pdf_paths)).
  split.
  - unfold analyze_documents. rewrite analyze_entries. simpl.
    apply (entries_from_whole fs pdf_paths Hwhole _ i pdf_path Hi).
  - split; [reflexivity |]. split; [reflexivity |]. split; [reflexivity |].
    split.
    + rewrite concatenate_pages. simpl.
      rewrite <- (take_drop_middle pdf_paths i pdf_path Hi) at 1.
      rewrite fmap_app, join_app, fmap_cons. simpl.
      now rewrite <- !app_assoc.
    + simpl. unfold first_document_page. rewrite !length_app. lia.
Qed.

(** *** The assembled document *)
















(** *** Paths and group labels *)

Lemma contains_app (c : ascii) (a b : string) :
  Py.contains c (a +:+ b) = Py.contains c a || Py.contains c b.
Proof.
  induction a as [|d a IH]; simpl; [reflexivity |].
  now rewrite IH, orb_assoc.
Qed.

Lemma contains_substring (c : ascii) (s : string) :
  Py.contains c s = false ->
  forall i n : nat, Py.contains c (substring i n s) = false.
Proof.
  induction s as [|d s IH]; intros H i n; simpl in *.
  - now destruct i, n.
  - apply orb_false_iff in H as [Hd Hs].
    destruct i as [|i]; [destruct n as [|n] |]; simpl; auto.
    now rewrite Hd, IH.
Qed.

Lemma rfind_none (c : ascii) (s : string) :
  Py.rfind c s = None <-> Py.contains c s = false.
Proof.
  induction s as [|d s IH]; simpl; [easy |].
  destruct (Py.rfind c s) as [i|].
  - split; [discriminate |]. intros H. apply orb_false_iff in H as [_ H].
    apply IH in H. discriminate H.
  - destruct IH as [IH _]. rewrite IH by reflexivity.
    destruct (Ascii.eqb c d); simpl; split; congruence.
Qed.

Lemma rfind_app_last (c : ascii) (a b : string) :
  Py.contains c b = false ->
  Py.rfind c (a +:+ String c b) = Some (String.length a).
Proof.
  intros Hb. induction a as [|d a IH]; simpl.
  - apply rfind_none in Hb. now rewrite Hb, Ascii.eqb_refl.
  - now rewrite IH.
Qed.

Lemma rfind_after (c : ascii) (s : string) :
  forall i n : nat,
  Py.rfind c s = Some i -> Py.contains c (substring (S i) n s) = false.
Proof.
  induction s as [|d s IH]; intros i n H; simpl in H; [discriminate |].
  destruct (Py.rfind c s) as [j|] eqn:Hs.
  - inversion H; subst i. simpl. now apply IH.
  - destruct (Ascii.eqb c d); [| discriminate]. inversion H; subst i.
    simpl. apply contains_substring. now apply rfind_none.
Qed.

Lemma substring_full (s : string) : substring 0 (String.length s) s = s.
Proof. induction s as [|c s IH]; simpl; [reflexivity | now rewrite IH]. Qed.

Lemma substring_skip (a b : string) (c : ascii) (n : nat) :
  substring (S (String.length a)) n (a +:+ String c b) = substring 0 n b.
Proof. induction a as [|d a IH]; simpl; [reflexivity | exact IH]. Qed.

Lemma name_no_separator (path : string) :
  Py.contains "/" (Path.name path) = false.
Proof.
  unfold Path.name. destruct (Py.rfind "/" path) as [i|] eqn:H.
  - now apply rfind_after.
  - now apply rfind_none.
Qed.

Lemma stem_no_separator (path : string) :
  Py.contains "/" (Path.stem path) = false.
Proof.
  unfold Path.stem. pose proof (name_no_separator path) as H.
  destruct (Py.rfind "." (Path.name path)) as [i|]; [| exact H].
  destruct (_ && _); [| exact H]. now apply contains_substring.
Qed.

Lemma name_joinpath (dir file : string) :
  Py.contains "/" file = false -> Path.name (Path.joinpath dir file) = file.
Proof.
  intros H. unfold Path.name, Path.joinpath.
  change ("/" +:+ file) with (String "/" file).
  rewrite (rfind_app_last _ _ _ H), substring_skip, string_length_app.
  simpl String.length.
  replace (String.length dir + S (String.length file)
           - S (String.length dir))%nat
    with (String.length file) by lia.
  apply substring_full.
Qed.


Lemma split_first_app (c : ascii) (a b : string) :
  Py.split_first c (a +:+ String c b) = Py.split_first c a.
Proof.
  induction a as [|d a IH]; simpl.
  - now rewrite Ascii.eqb_refl.
  - destruct (Ascii.eqb c d); [reflexivity | now rewrite IH].
Qed.

Lemma split_first_whole (c : ascii) (s : string) :
  Py.contains c s = false -> Py.split_first c s = s.
Proof.
  induction s as [|d s IH]; simpl; [reflexivity |]. intros H.
  apply orb_false_iff in H as [Hd Hs]. now rewrite Hd, IH.
Qed.

Lemma watermarked_path_name (temp_dir folder_name pdf_file : string) :
  Py.contains "/" folder_name = false ->
  Path.name (watermarked_path temp_dir folder_name pdf_file)
  = folder_name +:+ "_" +:+ Path.stem pdf_file +:+ "_watermarked.pdf".
Proof.
  intros H. unfold watermarked_path. apply name_joinpath.
  rewrite !contains_app, H, stem_no_separator. reflexivity.
Qed.

(** X12: for a folder whose name has no path separator, the group label
    that [combine_pdfs_with_toc] reads off the name of a watermarked file
    is the folder name up to its first underscore: the folder name itself
    when it has no underscore, and otherwise a shorter label, which the
    files of every folder that begins with the same word share. *)
Theorem group_label_is_folder_up_to_underscore
    (temp_dir folder_name pdf_file : string) :
  Py.contains "/" folder_name = false ->
  folder_name_of (watermarked_path temp_dir folder_name pdf_file)
  = Py.split_first "_" folder_name /\
  (Py.contains "_" folder_name = false ->
   folder_name_of (watermarked_path temp_dir folder_name pdf_file)
   = folder_name) /\
  (forall other_folder other_file : string,
     Py.contains "/" other_folder = false ->
     Py.split_first "_" other_folder = Py.split_first "_" folder_name ->
     folder_name_of (watermarked_path temp_dir other_folder other_file)
     = folder_name_of (watermarked_path temp_dir folder_name pdf_file)).
Proof.
  intros H.
  assert (Hlabel : forall f x : string,
            Py.contains "/" f = false ->
            folder_name_of (watermarked_path temp_dir f x)
            = Py.split_first "_" f).
  { intros f x Hf. unfold folder_name_of.
    rewrite (watermarked_path_name _ _ _ Hf).
    change ("_" +:+ Path.stem x +:+ "_watermarked.pdf")
      with (String "_" (Path.stem x +:+ "_watermarked.pdf")).
    apply split_first_app. }
  split; [now apply Hlabel |]. split.
  - intros Hu. rewrite (Hlabel _ _ H). now apply split_first_whole.
  - intros other_folder other_file Hother Hsame.
    now rewrite !Hlabel, Hsame by assumption.
Qed.

(** *** Sorting by file name *)

Lemma ltb_trans (a b c : string) :
  String.ltb a b = true -> String.ltb b c = true -> String.ltb a c = true.
Proof.
  unfold String.ltb. intros Hab Hbc.
  destruct (String.compare a b) eqn:Eab; try discriminate.
  destruct (String.compare b c) eqn:Ebc; try discriminate.
  apply OrderedTypeEx.String_as_OT.cmp_lt in Eab, Ebc.
  pose proof (OrderedTypeEx.String_as_OT.lt_trans _ _ _ Eab Ebc) as Hac.
  apply OrderedTypeEx.String_as_OT.cmp_lt in Hac.
  unfold OrderedTypeEx.String_as_OT.cmp in Hac. now rewrite Hac.
Qed.

Lemma ltb_asym (a b : string) :
  String.ltb a b = true -> String.ltb b a = false.
Proof.
  unfold String.ltb. rewrite (String.compare_antisym a b).
  now destruct (String.compare b a).
Qed.

Lemma ltb_antisym (a b : string) :
  String.ltb a b = false -> String.ltb b a = false -> a = b.
Proof.
  unfold String.ltb. rewrite (String.compare_antisym b a).
  destruct (String.compare a b) eqn:E; try discriminate.
  intros _ _. now apply String.compare_eq_iff.
Qed.

Lemma insert_by_permutation {A : Type} (key : A -> string) (x : A)
    (l : list A) :
  Py.insert_by key x l ≡ₚ x :: l.
Proof.
  induction l as [|y l IH]; simpl; [reflexivity |].
  destruct (String.ltb (key y) (key x)); [| reflexivity].
  rewrite IH. apply Permutation_swap.
Qed.

Lemma sorted_by_permutation {A : Type} (key : A -> string) (l : list A) :
  Py.sorted_by key l ≡ₚ l.
Proof.
  induction l as [|x l IH]; [reflexivity |].
  unfold Py.sorted_by in *. cbn [foldr].
  now rewrite insert_by_permutation, IH.
Qed.

Lemma ltb_le_trans (a b c : string) :
  String.ltb b a = false -> String.ltb c b = false -> String.ltb c a = false.
Proof.
  intros Hab Hbc. destruct (String.ltb c a) eqn:Hca; [| reflexivity].
  destruct (String.ltb a b) eqn:Hlt.
  - now rewrite (ltb_trans _ _ _ Hca Hlt) in Hbc.
  - rewrite (ltb_antisym a b Hlt Hab) in Hca. congruence.
Qed.

Lemma insert_by_sorted {A : Type} (key : A -> string) (x : A) (l : list A) :
  StronglySorted (key_le key) l ->
  StronglySorted (key_le key) (Py.insert_by key x l).
Proof.
  induction 1 as [|y l Hl IH Hy]; simpl.
  - repeat constructor.
  - destruct (String.ltb (key y) (key x)) eqn:Hyx.
    + constructor; [exact IH |].
      rewrite (insert_by_permutation key x l). constructor; [| exact Hy].
      now apply ltb_asym.
    + constructor; [now constructor |]. constructor; [exact Hyx |].
      eapply Forall_impl; [exact Hy |]. intros z Hz. unfold key_le in *.
      now apply (ltb_le_trans _ (key y)).
Qed.

Lemma sorted_by_sorted {A : Type} (key : A -> string) (l : list A) :
  StronglySorted (key_le key) (Py.sorted_by key l).
Proof.
  induction l as [|x l IH]; [constructor |].
  unfold Py.sorted_by in *. cbn [foldr]. now apply insert_by_sorted.
Qed.

(** X13: [sorted_by key l], the sort of [process_folder], is a
    rearrangement of [l] in which every element has a key not greater than
    the keys of the elements after it; when no two elements of [l] have the
    same key it is the only such rearrangement. *)
Theorem sort_by_name_is_the_sorted_rearrangement {A : Type}
    (key : A -> string) (l : list A) :
  Py.sorted_by key l ≡ₚ l /\
  StronglySorted (key_le key) (Py.sorted_by key l) /\
  (NoDup (key <$> l) ->
   forall l' : list A,
     l' ≡ₚ l -> StronglySorted (key_le key) l' -> l' = Py.sorted_by key l).
Proof.
  split; [apply sorted_by_permutation |].
  split; [apply sorted_by_sorted |].
  intros Hkeys l' Hperm Hsorted.
  apply (StronglySorted_unique_strong (key_le key));
    [| exact Hsorted | apply sorted_by_sorted
     | now rewrite sorted_by_permutation].
  intros x1 x2 H1 H2 H12 H21.
  rewrite Hperm in H1. rewrite sorted_by_permutation in H2.
  assert (Hk : key x1 = key x2) by now apply ltb_antisym.
  clear -Hkeys H1 H2 Hk.
  induction l as [|y l IH]; [inversion H1 |].
  rewrite fmap_cons in Hkeys. apply NoDup_cons in Hkeys as [Hy Hkeys].
  apply elem_of_cons in H1, H2.
  destruct H1 as [-> | H1], H2 as [-> | H2]; auto.
  - exfalso. apply Hy. rewrite Hk. now apply list_elem_of_fmap_2.
  - exfalso. apply Hy. rewrite <- Hk. now apply list_elem_of_fmap_2.
Qed.

(** *** Groups after sorting *)

Lemma ascii_compare_refl (c : ascii) : Ascii.compare c c = Eq.
Proof.
  pose proof (Ascii.compare_antisym c c) as H.
  destruct (Ascii.compare c c); simpl in H; congruence.
Qed.

(** The strings that begin with [p] form an interval of the order. *)
Lemma prefix_interval (p : string) :
  forall a c b : string,
  String.ltb b (p +:+ a) = false ->
  String.ltb (p +:+ c) b = false ->
  exists b' : string, b = p +:+ b'.
Proof.
  induction p as [|d p IH]; intros a c b Hab Hbc; [now exists b |].
  destruct b as [|e b]; [discriminate Hab |].
  unfold String.ltb in Hab, Hbc. simpl in Hab, Hbc.
  rewrite (Ascii.compare_antisym d e) in Hbc.
  destruct (Ascii.compare e d) eqn:Hed; simpl in Hbc; try discriminate.
  apply Ascii.compare_eq_iff in Hed. subst e.
  destruct (IH a c b) as [b' ->]; [exact Hab | exact Hbc |].
  now exists b'.
Qed.

Lemma split_first_decompose (c : ascii) (s : string) :
  Py.contains c s = true ->
  exists rest : string, s = Py.split_first c s +:+ String c rest.
Proof.
  induction s as [|d s IH]; simpl; [discriminate |].
  destruct (Ascii.eqb c d) eqn:Hcd; simpl.
  - intros _. apply Ascii.eqb_eq in Hcd. subst d. now exists s.
  - intros H. destruct (IH H) as [rest Hrest]. exists rest.
    change (String d s = String d (Py.split_first c s +:+ String c rest)).
    now rewrite <- Hrest.
Qed.

Lemma split_first_idempotent (c : ascii) (s : string) :
  Py.split_first c (Py.split_first c s) = Py.split_first c s.
Proof.
  induction s as [|d s IH]; simpl; [reflexivity |].
  destruct (Ascii.eqb c d) eqn:E; simpl; [reflexivity |].
  now rewrite E, IH.
Qed.

Lemma string_app_assoc (a b c : string) :
  (a +:+ b) +:+ c = a +:+ (b +:+ c).
Proof.
  induction a as [|d a IH]; [reflexivity |].
  change (String d ((a +:+ b) +:+ c) = String d (a +:+ (b +:+ c))).
  now rewrite IH.
Qed.

Lemma StronglySorted_lookup {A : Type} (R : A -> A -> Prop) (l : list A) :
  StronglySorted R l ->
  forall (i j : nat) (x y : A),
  (i < j)%nat -> l !! i = Some x -> l !! j = Some y -> R x y.
Proof.
  induction 1 as [|a l Hl IH Ha]; intros i j x y Hij Hi Hj;
    [discriminate |].
  destruct j as [|j]; [lia |]. simpl in Hj.
  destruct i as [|i]; simpl in Hi.
  - inversion Hi; subst a. rewrite Forall_forall in Ha. apply Ha.
    eapply list_elem_of_lookup_2. exact Hj.
  - apply (IH i j); [lia | assumption ..].
Qed.

Lemma StronglySorted_filter {A : Type} (R : A -> A -> Prop) (P : A -> Prop)
    `{!forall x, Decision (P x)} (l : list A) :
  StronglySorted R l -> StronglySorted R (filter P l).
Proof.
  induction 1 as [|a l Hl IH Ha]; [constructor |].
  rewrite filter_cons. destruct (decide (P a)); [| exact IH].
  constructor; [exact IH |]. rewrite Forall_forall in Ha |- *.
  intros x Hx. apply Ha. apply list_elem_of_filter in Hx. apply Hx.
Qed.

Lemma sorted_names_grouped (l : list string) :
  StronglySorted (key_le Path.name) l ->
  Forall (fun p => Py.contains "_" (Path.name p) = true) l ->
  grouped (folder_name_of <$> l).
Proof.
  intros Hsorted Hnames i j k a b [Hij Hjk] Hi Hj Hk.
  apply list_lookup_fmap_Some_1 in Hi as (pi & -> & Hi).
  apply list_lookup_fmap_Some_1 in Hj as (pj & -> & Hj).
  apply list_lookup_fmap_Some_1 in Hk as (pk & Hlabel & Hk).
  pose proof (StronglySorted_lookup _ _ Hsorted i j pi pj Hij Hi Hj) as Hle1.
  pose proof (StronglySorted_lookup _ _ Hsorted j k pj pk Hjk Hj Hk) as Hle2.
  rewrite Forall_forall in Hnames.
  destruct (split_first_decompose "_" (Path.name pi)) as [ri Hri];
    [eapply Hnames, list_elem_of_lookup_2; exact Hi |].
  destruct (split_first_decompose "_" (Path.name pk)) as [rk Hrk];
    [eapply Hnames, list_elem_of_lookup_2; exact Hk |].
  unfold folder_name_of in *. unfold key_le in Hle1, Hle2.
  rewrite <- Hlabel in Hrk.
  set (g := Py.split_first "_" (Path.name pi)) in *.
  rewrite Hri in Hle1. rewrite Hrk in Hle2.
  change (g +:+ String "_" ri) with (g +:+ ("_" +:+ ri)) in Hle1.
  change (g +:+ String "_" rk) with (g +:+ ("_" +:+ rk)) in Hle2.
  rewrite <- string_app_assoc in Hle1, Hle2.
  destruct (prefix_interval (g +:+ "_") ri rk (Path.name pj) Hle1 Hle2)
    as [r Hr].
  rewrite Hr, string_app_assoc.
  change ("_" +:+ r) with (String "_" r). rewrite split_first_app.
  apply split_first_idempotent.
Qed.

Lemma starts_from_previous (l : list DocumentInfo) :
  forall (cp : option string) (y : DocumentInfo),
  y ∈ starts_from cp l ->
  exists j : nat,
    l !! j = Some y /\
    match j with
    | O => cp <> Some (folder y)
    | S j' => exists z, l !! j' = Some z /\ folder z <> folder y
    end.
Proof.
  induction l as [|info rest IH]; intros cp y Hy; [inversion Hy |].
  cbn [starts_from] in Hy. apply elem_of_app in Hy as [Hy | Hy].
  - case_bool_decide as Hnew; [| inversion Hy].
    apply list_elem_of_singleton in Hy. subst y. now exists 0%nat.
  - destruct (IH _ _ Hy) as (j & Hj & Hprev). exists (S j).
    split; [exact Hj |]. destruct j as [|j'].
    + exists info. split; [reflexivity |]. congruence.
    + exact Hprev.
Qed.

Lemma grouped_tail (a : string) (labels : list string) :
  grouped (a :: labels) -> grouped labels.
Proof.
  intros H i j k x y Hlt Hi Hj Hk.
  apply (H (S i) (S j) (S k)); [lia | assumption ..].
Qed.

Lemma grouped_starts (l : list DocumentInfo) :
  forall cp : option string,
  grouped (folder <$> l) -> NoDup (folder <$> starts_from cp l).
Proof.
  induction l as [|info rest IH]; intros cp Hg; [constructor |].
  cbn [starts_from]. rewrite fmap_app. apply NoDup_app.
  split; [| split].
  - case_bool_decide; [apply NoDup_singleton | constructor].
  - intros x Hx Hx'.
    assert (x = folder info) as ->.
    { case_bool_decide; [| inversion Hx].
      now apply list_elem_of_singleton in Hx. }
    apply list_elem_of_fmap_1 in Hx' as (y & Hfy & Hy).
    destruct (starts_from_previous _ _ _ Hy) as ([|j'] & Hj & Hprev).
    + congruence.
    + destruct Hprev as (z & Hz & Hne). apply Hne. rewrite <- Hfy.
      apply (Hg 0%nat (S j') (S (S j'))); [lia | reflexivity | |].
      * simpl. now rewrite list_lookup_fmap, Hz.
      * simpl. now rewrite list_lookup_fmap, Hj, Hfy.
  - apply IH. rewrite fmap_cons in Hg. now apply grouped_tail in Hg.
Qed.

Lemma entries_from_labels (fs : gmap string File) (pdf_paths : list string) :
  forall current_page : Z,
  folder <$> entries_from fs current_page pdf_paths
  = folder_name_of
      <$> filter (fun pdf_path => readable fs pdf_path = true) pdf_paths.
Proof.
  induction pdf_paths as [|p rest IH]; intros current_page; [reflexivity |].
  cbn [entries_from]. rewrite filter_cons.
  destruct (decide (readable fs p = true)) as [Hr | Hr];
    unfold readable in Hr; unfold PdfReader;
    destruct (fs !! p) as [[|doc]|]; try discriminate Hr;
    try (exfalso; apply Hr; reflexivity);
    rewrite ?fmap_cons, IH; reflexivity.
Qed.

(** X14: when the name of every path contains an underscore, as the names
    of the watermarked files do, the entries that [combine_pdfs_with_toc]
    makes from the paths sorted by name carry the labels of the readable
    paths in that order, equal labels are next to each other, and no two
    group runs have the same label: every group gets one header in the
    table of contents and one entry in the outline. *)
Theorem sorted_names_give_one_run_per_group (fs : gmap string File)
    (pdf_paths : list string) :
  Forall (fun p => Py.contains "_" (Path.name p) = true) pdf_paths ->
  let sorted := Py.sorted_by Path.name pdf_paths in
  let document_info := (analyze_documents fs sorted).1 in
  folder <$> document_info
  = folder_name_of <$> filter (fun p => readable fs p = true) sorted /\
  grouped (folder <$> document_info) /\
  NoDup (folder <$> run_starts document_info).
Proof.
  intros Hnames sorted document_info.
  assert (Hlabels : folder <$> document_info
            = folder_name_of
                <$> filter (fun p => readable fs p = true) sorted).
  { unfold document_info, analyze_documents. rewrite analyze_entries.
    apply entries_from_labels. }
  assert (Hgrouped : grouped (folder <$> document_info)).
  { rewrite Hlabels. apply sorted_names_grouped.
    - apply StronglySorted_filter, sorted_by_sorted.
    - rewrite Forall_forall in Hnames |- *. intros p Hp.
      apply list_elem_of_filter in Hp as [_ Hp]. apply Hnames.
      unfold sorted in Hp. now rewrite sorted_by_permutation in Hp. }
  split; [exact Hlabels |]. split; [exact Hgrouped |].
  rewrite <- starts_from_run_starts. now apply grouped_starts.
Qed.

(** *** The whole run *)






(** *** The watermarked copy *)

Lemma watermark_pdf_first_page_diverges (fuel : nat) (fs : gmap string File)
    (input_path output_path : string) (doc : Document) (page : PageObject) :
  fs !! input_path = Some (Pdf doc) ->
  head (pages doc) = Some (Some page) ->
  create_watermark_pdf fuel (fst (mediabox page)) (snd (mediabox page))
  = Diverges ->
  watermark_pdf fuel fs input_path output_path = Diverges.
Proof.
  intros Hfile Hhead Hdiv.
  unfold watermark_pdf, PdfReader. rewrite Hfile, bind_returns.
  destruct (pages doc) as [|slot rest]; [discriminate |].
  simpl in Hhead. inversion Hhead; subst slot.
  cbn [watermark_pages read_page]. rewrite bind_returns.
  unfold watermark_page. now rewrite Hdiv.
Qed.

Lemma watermark_pages_inversion (fuel : nat)
    (slots : list (option PageObject)) :
  forall writer writer' : PdfWriter,
  watermark_pages fuel writer slots = Returns writer' ->
  exists ps ps' : list PageObject,
    slots = Some <$> ps /\
    writer' = {| w_pages := w_pages writer ++ ps';
                 w_outline := w_outline writer |} /\
    Forall2 (fun p p' => exists overlay,
               create_watermark_pdf fuel (fst (mediabox p)) (snd (mediabox p))
                 = Returns overlay /\
               mediabox overlay = mediabox p /\
               p' = merge_page p overlay) ps ps'.
Proof.
  induction slots as [|slot rest IH]; intros writer writer' H.
  - inversion H; subst writer'. exists [], []. rewrite app_nil_r.
    destruct writer. repeat split. constructor.
  - cbn [watermark_pages] in H.
    destruct slot as [p|]; [| discriminate]. cbn [read_page] in H.
    rewrite bind_returns in H.
    destruct (watermark_page fuel p) as [p'| |] eqn:Hp; try discriminate.
    rewrite bind_returns in H.
    destruct (IH _ _ H) as (ps & ps' & -> & -> & Hrel).
    unfold watermark_page in Hp.
    destruct (create_watermark_pdf fuel (fst (mediabox p)) (snd (mediabox p)))
      as [overlay| |] eqn:Hov; try discriminate.
    rewrite bind_returns in Hp. inversion Hp; try subst p'.
    exists (p :: ps), (merge_page p overlay :: ps'). split; [reflexivity |].
    split.
    + simpl. now rewrite <- app_assoc.
    + constructor; [| exact Hrel]. exists overlay.
      split; [exact Hov |]. split; [| reflexivity].
      apply create_watermark_pdf_box in Hov as [Hov _]. rewrite Hov.
      now destruct (mediabox p).
Qed.

(** X16: a call of [watermark_pdf] that returns [True] has read a document
    all of whose pages can be read and has written, at [output_path], a
    document with the same number of pages, in the same order, each of
    them the input page with the overlay rendered at that page's own width
    and height merged onto it, and with the width and height of the input
    page; no other file has changed. *)
Theorem watermarked_copy_keeps_pages (fuel : nat) (fs fs' : gmap string File)
    (input_path output_path : string) :
  watermark_pdf fuel fs input_path output_path = Returns (true, fs') ->
  exists (doc : Document) (ps ps' : list PageObject),
    fs !! input_path = Some (Pdf doc) /\
    pages doc = Some <$> ps /\
    fs' = <[output_path := Pdf {| pages := Some <$> ps';
                                  outline := [] |}]> fs /\
    length ps' = length ps /\
    Forall2 (fun p p' =>
               mediabox p' = mediabox p /\
               exists overlay,
                 create_watermark_pdf fuel (fst (mediabox p)) (snd (mediabox p))
                   = Returns overlay /\
                 p' = merge_page p overlay) ps ps'.
Proof.
  unfold watermark_pdf, PdfReader. intros H.
  destruct (fs !! input_path) as [[|doc]|]; try discriminate.
  rewrite bind_returns in H.
  destruct (watermark_pages fuel empty_writer (pages doc))
    as [writer| |] eqn:Hrun; try discriminate.
  destruct (watermark_pages_inversion _ _ _ _ Hrun)
    as (ps & ps' & Hpages & -> & Hrel).
  simpl in H. inversion H; subst fs'; clear H.
  exists doc, ps, ps'. split; [reflexivity |]. split; [exact Hpages |].
  split; [reflexivity |].
  split; [symmetry; eapply Forall2_length; exact Hrel |].
  eapply Forall2_impl; [exact Hrel |].
  intros p p' (overlay & Hov & _ & ->). split; [reflexivity |].
  now exists overlay.
Qed.

End Watermarker.

(** ** The properties on concrete documents

    The examples measure text with [afm_stringWidth], take the cosine and
    sine of 30 degrees from [libm_cos] and [libm_sin], and use the default
    watermark text of the tool. *)

Definition default_text : string := "DOCUMENT RESERVE A LA LOCATION".

(** The date of the example runs, and a PDF library that accepts every link. *)
Definition run_date : string := "03/11/2026".

Definition no_annotation_error (page_number : Z) (a : LinkAnnotation) : bool :=
  false.

(** The allowed text width on a page of the given width. *)
Definition allowed_width (width : float) : float :=
  match max_allowed_width libm_cos libm_sin width with
  | Returns maxw => maxw
  | _ => PrimFloat.nan
  end.

Definition a4_page (id : N) : PageObject :=
  {| mediabox := (595.28, 841.89)%float;
     contents := [SourceStream id];
     annotations := [] |}.

Definition letter_page (id : N) : PageObject :=
  {| mediabox := (612, 792)%float;
     contents := [SourceStream id];
     annotations := [] |}.

(** C9 on a nine-letter text. *)
Lemma truncate_step_on_watermark :
  truncate_step "WATERMARK" = "WATERM..." /\
  String.length (truncate_step "WATERMARK") = String.length "WATERMARK" /\
  truncate_step (truncate_step "WATERMARK") = truncate_step "WATERMARK".
Proof.
  destruct (truncate_step_preserves_length_and_is_idempotent "WATERMARK")
    as (Hstep & Hlen & Hidem).
  split; [reflexivity | split; [| exact Hidem]].
  apply Hlen. simpl. lia.
Defined.

(** C3 on an A4 page with the default text: the search stays at 24pt. *)
Lemma font_search_on_a4 :
  (16 <= 16)%nat /\
  max_allowed_width libm_cos libm_sin 595.28%float
    = Returns (allowed_width 595.28%float) /\
  exists (font_size : Z) (text_width : float),
    scale_down afm_stringWidth default_text 16 (allowed_width 595.28%float)
      = Returns (font_size, text_width) /\
    min_font_size <= font_size <= max_font_size /\
    text_width = afm_stringWidth default_text HelveticaBold font_size /\
    (font_size <> min_font_size ->
     Py.gt text_width (allowed_width 595.28%float) = false).
Proof.
  split; [lia |]. split; [vm_compute; reflexivity |].
  apply (font_search_respects_allowed_width afm_stringWidth libm_cos libm_sin
           default_text 595.28%float (allowed_width 595.28%float) 16).
  - lia.
  - vm_compute. reflexivity.
Defined.

(** C3 as stated fails: on an A4 page, 595.28pt wide, a 35-letter text is
    kept at 24pt, where it is 528pt wide, more than 0.8 times the page
    width (476pt), because the allowed width there is 537pt. *)
Lemma font_search_exceeds_80_percent_of_width :
  exists text_width : float,
    fit_text afm_stringWidth libm_cos libm_sin
      "DOCUMENT RESERVE A LA LOCATION ONLY" 16 595.28%float
    = Returns (24, "DOCUMENT RESERVE A LA LOCATION ONLY", text_width) /\
    Py.gt text_width (595.28 * 0.8)%float = true /\
    Py.gt text_width (allowed_width 595.28%float) = false.
Proof. eexists. repeat split; vm_compute; reflexivity. Qed.

(** C4 on a page 110pt wide and a text of 13 letters [W]: one step makes
    it fit. *)
Lemma truncation_on_narrow_page :
  let text := "WWWWWWWWWWWWW" in
  let maxw := allowed_width 110%float in
  let text_width := afm_stringWidth text HelveticaBold 8 in
  Py.gt text_width maxw = true /\
  10 < Py.len text /\
  fit_text afm_stringWidth libm_cos libm_sin text 16 110%float
  = Returns (8, "WWWWWWWWWW...",
             afm_stringWidth "WWWWWWWWWW..." HelveticaBold 8) /\
  ends_with "..." (truncate_step text) /\
  Py.len (truncate_step text) = Py.len text.
Proof.
  cbv zeta.
  destruct (truncation_in_overflow_scenario afm_stringWidth libm_cos libm_sin
              "WWWWWWWWWWWWW" 16 110%float (allowed_width 110%float) 8
              (afm_stringWidth "WWWWWWWWWWWWW" HelveticaBold 8))
    as (_ & _ & Hlong).
  - lia.
  - vm_compute. reflexivity.
  - vm_compute. reflexivity.
  - vm_compute. reflexivity.
  - split; [vm_compute; reflexivity |]. split; [vm_compute; reflexivity |].
    apply Hlong.
    + vm_compute. reflexivity.
    + vm_compute. reflexivity.
Defined.

Lemma ends_with_substring (suffix s : string) :
  ends_with suffix s ->
  substring (String.length s - String.length suffix) (String.length suffix) s
  = suffix.
Proof.
  intros [p ->]. rewrite string_length_app.
  replace (String.length p + String.length suffix - String.length suffix)%nat
    with (String.length p) by lia.
  induction p as [|c p IH]; simpl; [| exact IH].
  induction suffix as [|c suffix IH]; simpl; [reflexivity |].
  f_equal. exact IH.
Qed.

(** C4 as stated fails.  On a page 20pt wide the five-letter text [WWWWW]
    overflows at 8pt and is returned as it is, without the marker and
    shorter than 10 characters.  On a page 150pt wide the default text
    overflows at 8pt, and so does its truncated form, so that the loop does
    not end whatever the number of iterations allowed. *)
Lemma truncation_counterexample :
  (exists text_width : float,
     fit_text afm_stringWidth libm_cos libm_sin "WWWWW" 16 20%float
       = Returns (8, "WWWWW", text_width) /\
     Py.gt text_width (allowed_width 20%float) = true /\
     ~ ends_with "..." "WWWWW" /\
     Py.len "WWWWW" < 10) /\
  ~ (exists (fuel : nat) (result : Z * string * float),
       fit_text afm_stringWidth libm_cos libm_sin default_text fuel 150%float
         = Returns result).
Proof.
  split.
  - eexists. split; [vm_compute; reflexivity |].
    split; [vm_compute; reflexivity |]. split; [| vm_compute; reflexivity].
    intros Hends. apply ends_with_substring in Hends. discriminate Hends.
  - intros (fuel & result & H).
    rewrite (fit_text_diverges afm_stringWidth libm_cos libm_sin default_text
               150%float (allowed_width 150%float) 8
               (afm_stringWidth default_text HelveticaBold 8)) in H;
      [discriminate | vm_compute; reflexivity ..].
Qed.

(** Whether a run returned [True]. *)
Definition returns_true {A : Type} (o : outcome (bool * A)) : bool :=
  match o with
  | Returns (true, _) => true
  | _ => false
  end.

(** A document with one page, 150pt wide and 200pt high. *)
Definition receipt_files : gmap string File :=
  {[ "src/Al/receipt.pdf" :=
       Pdf {| pages := [Some {| mediabox := (150, 200)%float;
                                contents := [SourceStream 1];
                                annotations := [] |}];
              outline := [] |} ]}.

(** C5: a document with one readable page 150pt wide and 200pt high, read
    and watermarked with the default text, is not watermarked into a new
    document with the same pages: the truncation loop of the overlay
    renderer repeats the same state, so that [watermark_pdf] does not
    return, whatever the number of iterations allowed. *)
Theorem narrow_page_document_is_never_watermarked :
  receipt_files !! "src/Al/receipt.pdf"
  = Some (Pdf {| pages := Some <$> [ {| mediabox := (150, 200)%float;
                                         contents := [SourceStream 1];
                                         annotations := [] |} ];
                 outline := [] |}) /\
  forall fuel : nat,
    watermark_pdf afm_stringWidth libm_cos libm_sin default_text 0.3%float
      fuel receipt_files "src/Al/receipt.pdf"
      "src/temp_watermarked/Al_receipt_watermarked.pdf" = Diverges.
Proof.
  split; [vm_compute; reflexivity |]. intros fuel.
  eapply watermark_pdf_first_page_diverges.
  - vm_compute. reflexivity.
  - reflexivity.
  - unfold create_watermark_pdf. cbn [mediabox fst snd].
    rewrite (fit_text_diverges afm_stringWidth libm_cos libm_sin default_text
               150%float (allowed_width 150%float) 8
               (afm_stringWidth default_text HelveticaBold 8));
      [reflexivity | vm_compute; reflexivity ..].
Qed.

(** X16 on a document with an A4 page and a Letter page. *)
Definition lease_files : gmap string File :=
  {[ "src/Al/lease.pdf" :=
       Pdf {| pages := [Some (a4_page 1); Some (letter_page 2)];
              outline := [] |} ]}.

Lemma lease_is_watermarked :
  returns_true
    (watermark_pdf afm_stringWidth libm_cos libm_sin default_text 0.3%float 16
       lease_files "src/Al/lease.pdf"
       "src/temp_watermarked/Al_lease_watermarked.pdf") = true.
Proof. vm_compute. reflexivity. Qed.

Lemma watermarking_two_page_document :
  exists (fs' : gmap string File) (ps' : list PageObject),
    watermark_pdf afm_stringWidth libm_cos libm_sin default_text 0.3%float 16
      lease_files "src/Al/lease.pdf"
      "src/temp_watermarked/Al_lease_watermarked.pdf" = Returns (true, fs') /\
    fs' = <["src/temp_watermarked/Al_lease_watermarked.pdf" :=
              Pdf {| pages := Some <$> ps'; outline := [] |}]> lease_files /\
    length ps' = 2%nat /\
    Forall2 (fun p p' => mediabox p' = mediabox p)
            [a4_page 1; letter_page 2] ps'.
Proof.
  pose proof lease_is_watermarked as Hrun.
  destruct (watermark_pdf afm_stringWidth libm_cos libm_sin default_text
              0.3%float 16 lease_files "src/Al/lease.pdf"
              "src/temp_watermarked/Al_lease_watermarked.pdf")
    as [[[|] fs']| |] eqn:Hcall; try discriminate Hrun.
  destruct (watermarked_copy_keeps_pages afm_stringWidth libm_cos libm_sin
              default_text 0.3%float 16 lease_files fs' "src/Al/lease.pdf"
              "src/temp_watermarked/Al_lease_watermarked.pdf" Hcall)
    as (doc & ps & ps' & Hdoc & Hpages & Hfs & Hlen & Hrel).
  assert (Hps : ps = [a4_page 1; letter_page 2]).
  { vm_compute in Hdoc. inversion Hdoc; subst doc. simpl in Hpages.
    destruct ps as [|p1 [|p2 [|p3 ps]]]; try discriminate Hpages.
    now inversion Hpages. }
  subst ps. exists fs', ps'. split; [reflexivity |]. split; [exact Hfs |].
  split; [exact Hlen |].
  eapply Forall2_impl; [exact Hrel |]. intros p p' [H _]. exact H.
Defined.

(** C6 on a document whose second page is corrupt. *)
Definition scan_files : gmap string File :=
  {[ "src/Al/scan.pdf" :=
       Pdf {| pages := [Some (a4_page 1); None; Some (a4_page 3)];
              outline := [] |} ]}.

Lemma corrupt_page_fails_the_document_only :
  watermark_pdf afm_stringWidth libm_cos libm_sin default_text 0.3%float 16
    scan_files "src/Al/scan.pdf" "src/temp_watermarked/Al_scan_watermarked.pdf"
  = Returns (false, scan_files) /\
  process_files afm_stringWidth libm_cos libm_sin default_text 0.3%float 16
    "src/temp_watermarked" "Al" (scan_files, [])
    ["src/Al/scan.pdf"; "src/Al/lease.pdf"]
  = process_files afm_stringWidth libm_cos libm_sin default_text 0.3%float 16
      "src/temp_watermarked" "Al" (scan_files, []) ["src/Al/lease.pdf"].
Proof.
  destruct (failing_page_excludes_document_only afm_stringWidth libm_cos
              libm_sin default_text 0.3%float run_date no_annotation_error 16
              scan_files "src/Al/scan.pdf"
              {| pages := [Some (a4_page 1); None; Some (a4_page 3)];
                 outline := [] |}
              [a4_page 1] None [Some (a4_page 3)])
    as (Hfail & Hloop & _).
  - vm_compute. reflexivity.
  - reflexivity.
  - repeat constructor. eexists. vm_compute. reflexivity.
  - left. reflexivity.
  - split; [apply Hfail | apply Hloop].
Defined.

(** C2 on three paths, the second of which cannot be read. *)
Definition watermarked_files : gmap string File :=
  {[ "t/Al_id_watermarked.pdf" :=
       Pdf {| pages := [Some (a4_page 1); Some (a4_page 2)]; outline := [] |};
     "t/Bob_payslip_watermarked.pdf" :=
       Pdf {| pages := [Some (a4_page 3)]; outline := [] |} ]}.

Definition watermarked_paths : list string :=
  ["t/Al_id_watermarked.pdf"; "t/Al_lost_watermarked.pdf";
   "t/Bob_payslip_watermarked.pdf"].

Lemma start_pages_of_three_paths :
  exists e1 e2 : DocumentInfo,
    (analyze_documents watermarked_files watermarked_paths).1 !! 0%nat = Some e1 /\
    (analyze_documents watermarked_files watermarked_paths).1 !! 1%nat = Some e2 /\
    page e1 = 3 /\
    page e2 = page e1 + num_pages e1.
Proof.
  pose proof (start_pages_are_contiguous watermarked_files watermarked_paths)
    as H.
  cbv zeta in H. destruct H as (Hnext & Hfirst & _).
  assert (H0 : (analyze_documents watermarked_files watermarked_paths).1 !! 0%nat
               = Some {| folder := "Al"; document := "Id"; page := 3;
                         num_pages := 2 |})
    by (vm_compute; reflexivity).
  assert (H1 : (analyze_documents watermarked_files watermarked_paths).1 !! 1%nat
               = Some {| folder := "Bob"; document := "Payslip"; page := 5;
                         num_pages := 1 |})
    by (vm_compute; reflexivity).
  eexists _, _. split; [exact H0 |]. split; [exact H1 |].
  split; [exact (Hfirst _ H0) | exact (Hnext _ _ _ H0 H1)].
Defined.

(** C10 on three documents whose first group comes back after another. *)
Definition returning_group : list DocumentInfo :=
  [ {| folder := "Al"; document := "Id"; page := 3; num_pages := 1 |};
    {| folder := "Bob"; document := "Payslip"; page := 4; num_pages := 1 |};
    {| folder := "Al"; document := "Lease"; page := 5; num_pages := 2 |} ].

Lemma returning_group_gets_two_nodes :
  (2 <= length (filter (fun item => ol_title item = "Al")
                       (group_node <$> run_starts returning_group)))%nat /\
  exists (fs' : gmap string File) (links : list TocLink) (n : Z)
         (toc_pages : list PageObject),
    create_table_of_contents afm_stringWidth ∅ returning_group
      "src/temp_toc.pdf" = Returns (fs', links, n) /\
    fs' !! "src/temp_toc.pdf"
      = Some (Pdf {| pages := Some <$> toc_pages; outline := [] |}) /\
    header_texts toc_pages = ["Al"; "Bob"; "Al"].
Proof.
  pose proof (group_nodes_follow_label_runs afm_stringWidth [] returning_group)
    as H.
  cbv zeta in H. destruct H as (_ & _ & Htitles & Htoc & Hagain).
  split.
  - apply (Hagain "Al" 0%nat 1%nat 2%nat
             {| folder := "Al"; document := "Id"; page := 3; num_pages := 1 |}
             {| folder := "Bob"; document := "Payslip"; page := 4;
                num_pages := 1 |}
             {| folder := "Al"; document := "Lease"; page := 5;
                num_pages := 2 |});
      try reflexivity; [lia | discriminate].
  - specialize (Htoc ∅ "src/temp_toc.pdf").
    destruct (create_table_of_contents afm_stringWidth ∅ returning_group
                "src/temp_toc.pdf") as [[[fs' links] n]| |] eqn:Hrun;
      [| vm_compute in Hrun; discriminate Hrun ..].
    destruct Htoc as (toc_pages & Hfile & Hheaders).
    exists fs', links, n, toc_pages. split; [reflexivity |].
    split; [exact Hfile |]. rewrite Hheaders, Htitles. reflexivity.
Defined.

(** C1 and C8 on an assembled document of four pages: a title page, one
    table-of-contents page and two document pages.  The second record
    points after the last page. *)
Definition assembled : PdfWriter :=
  {| w_pages := [a4_page 0; a4_page 1; a4_page 2; letter_page 3];
     w_outline := [] |}.

Definition recorded_links : list TocLink :=
  [ {| rect := (50, 100, 545, 115)%float; target_page := 3; toc_page := 0 |};
    {| rect := (50, 82, 545, 97)%float; target_page := 9; toc_page := 0 |} ].

Lemma link_on_the_toc_page :
  add_links no_annotation_error assembled recorded_links
  = Returns
      {| w_pages :=
           [a4_page 0;
            annotate {| link_rect := (50, 726.89, 545, 741.89)%float;
                        link_target_page_index := 2 |} (a4_page 1);
            a4_page 2; letter_page 3];
         w_outline := [] |}.
Proof.
  pose proof (link_injection_annotations no_annotation_error assembled
                recorded_links) as H.
  destruct H as [H _].
  - repeat constructor; simpl; lia.
  - rewrite H. vm_compute. reflexivity.
Defined.

Definition combined_files : gmap string File :=
  {[ "src/temp_combined.pdf" :=
       Pdf {| pages := Some <$> w_pages assembled; outline := [] |} ]}.

Lemma links_keep_the_four_pages :
  exists ps' : list PageObject,
    add_links_to_pdf no_annotation_error (Some recorded_links) combined_files
      "src/temp_combined.pdf" "src/temp_with_links.pdf"
    = Returns (<["src/temp_with_links.pdf" :=
                   Pdf {| pages := Some <$> ps'; outline := [] |}]>
                 combined_files) /\
    length ps' = 4%nat /\
    add_links_to_pdf no_annotation_error (Some (take 1 recorded_links))
      combined_files "src/temp_combined.pdf" "src/temp_with_links.pdf"
    = add_links_to_pdf no_annotation_error (Some recorded_links) combined_files
        "src/temp_combined.pdf" "src/temp_with_links.pdf".
Proof.
  destruct (link_injection_keeps_pages no_annotation_error combined_files
              "src/temp_combined.pdf" "src/temp_with_links.pdf"
              {| pages := Some <$> w_pages assembled; outline := [] |}
              (w_pages assembled) recorded_links)
    as (ps' & Hrun & Hlen & _ & Hskip).
  - vm_compute. reflexivity.
  - reflexivity.
  - repeat constructor; simpl; lia.
  - exists ps'. split; [exact Hrun |]. split; [exact Hlen |].
    apply (Hskip (take 1 recorded_links) []
             {| rect := (50, 82, 545, 97)%float; target_page := 9;
                toc_page := 0 |}); [reflexivity |].
    unfold out_of_range. simpl. lia.
Defined.

(** ** Further properties on concrete documents *)

(** X4 on an A4 page with the default text: four stamps at 24pt. *)
Lemma overlay_on_a4 :
  exists overlay : PageObject,
    create_watermark_pdf afm_stringWidth libm_cos libm_sin default_text
      0.3%float 16 595.28%float 841.89%float = Returns overlay /\
    exists (maxw : float) (font_size : Z) (text : string) (dx dy : float),
      max_allowed_width libm_cos libm_sin 595.28%float = Returns maxw /\
      min_font_size <= font_size <= max_font_size /\
      (text = default_text \/
       text = truncate_step default_text /\ 10 < Py.len default_text) /\
      (Py.gt (afm_stringWidth text HelveticaBold font_size) maxw = false \/
       text = default_text /\ font_size = min_font_size /\
         Py.len default_text <= 10) /\
      mediabox overlay = (595.28, 841.89)%float /\
      annotations overlay = [] /\
      contents overlay =
        (fun y => DrawString {| tr_font := HelveticaBold;
                                tr_size := font_size;
                                tr_fill := red 0.3%float;
                                tr_translate := (dx, y - dy)%float;
                                tr_rotate := 30;
                                tr_pos := (0, 0)%float; tr_text := text |})
        <$> [841.89 * 0.2; 841.89 * 0.4; 841.89 * 0.6; 841.89 * 0.8]%float.
Proof.
  eexists. split; [vm_compute; reflexivity |].
  apply (overlay_layout afm_stringWidth libm_cos libm_sin default_text
           0.3%float 16 595.28%float 841.89%float).
  vm_compute. reflexivity.
Defined.

(** X5 on a document whose only page has width zero. *)
Definition zero_width_files : gmap string File :=
  {[ "src/Al/blank.pdf" :=
       Pdf {| pages := [Some {| mediabox := (0, 100)%float;
                                contents := [SourceStream 1];
                                annotations := [] |}];
              outline := [] |} ]}.

Lemma zero_width_document_is_skipped :
  create_watermark_pdf afm_stringWidth libm_cos libm_sin default_text
    0.3%float 16 0%float 100%float = Raises ZeroDivisionError /\
  watermark_pdf afm_stringWidth libm_cos libm_sin default_text 0.3%float 16
    zero_width_files "src/Al/blank.pdf"
    "src/temp_watermarked/Al_blank_watermarked.pdf"
  = Returns (false, zero_width_files).
Proof.
  destruct (zero_width_page_raises_zero_division afm_stringWidth libm_cos
              libm_sin default_text 0.3%float 16 0%float 100%float eq_refl)
    as (Hzero & _ & Hskip).
  split.
  - apply Hzero. left. reflexivity.
  - apply (Hskip eq_refl zero_width_files "src/Al/blank.pdf"
             "src/temp_watermarked/Al_blank_watermarked.pdf"
             {| pages := [Some {| mediabox := (0, 100)%float;
                                  contents := [SourceStream 1];
                                  annotations := [] |}];
                outline := [] |}
             [] {| mediabox := (0, 100)%float; contents := [SourceStream 1];
                   annotations := [] |} []).
    + vm_compute. reflexivity.
    + reflexivity.
    + reflexivity.
    + constructor.
Defined.


(** X10 on two documents behind a title page and a table of contents of
    two pages, where the analysis assumed one: the second document stands
    one page after its start page. *)
Definition assembly_files : gmap string File :=
  <["t/temp_title.pdf" := Pdf {| pages := [Some (a4_page 10)];
                                 outline := [] |}]>
    (<["t/temp_toc.pdf" := Pdf {| pages := [Some (a4_page 11);
                                            Some (a4_page 12)];
                                  outline := [] |}]> watermarked_files).

Lemma second_document_one_page_late :
  exists (e : DocumentInfo) (before after : list PageObject),
    (analyze_documents assembly_files
       ["t/Al_id_watermarked.pdf"; "t/Bob_payslip_watermarked.pdf"]).1
      !! 1%nat = Some e /\
    page e = 5 /\
    w_pages (concatenate assembly_files "t/temp_title.pdf" "t/temp_toc.pdf"
               ["t/Al_id_watermarked.pdf"; "t/Bob_payslip_watermarked.pdf"])
    = before ++ [a4_page 3] ++ after /\
    Z.of_nat (length before) = page e - 1 + 1.
Proof.
  destruct (documents_start_at_page_plus_drift assembly_files
              "t/temp_title.pdf" "t/temp_toc.pdf"
              ["t/Al_id_watermarked.pdf"; "t/Bob_payslip_watermarked.pdf"]
              1%nat "t/Bob_payslip_watermarked.pdf")
    as (e & before & after & He & _ & _ & _ & Hpages & Hpos).
  - repeat constructor.
    + exists {| pages := [Some (a4_page 1); Some (a4_page 2)]; outline := [] |},
        [a4_page 1; a4_page 2].
      split; [vm_compute; reflexivity | reflexivity].
    + exists {| pages := [Some (a4_page 3)]; outline := [] |}, [a4_page 3].
      split; [vm_compute; reflexivity | reflexivity].
  - reflexivity.
  - exists e, before, after. split; [exact He |].
    assert (Hpage : page e = 5).
    { vm_compute in He. inversion He. reflexivity. }
    split; [exact Hpage |]. split; [exact Hpages |].
    rewrite Hpos. vm_compute. reflexivity.
Defined.

(** X12 on a folder named after a first and a last name. *)
Lemma jean_dupont_is_labelled_jean :
  Py.contains "/" "Jean_Dupont" = false /\
  folder_name_of (watermarked_path "src/temp_watermarked" "Jean_Dupont"
                    "src/Jean_Dupont/id.pdf") = "Jean" /\
  folder_name_of (watermarked_path "src/temp_watermarked" "Jean_Martin"
                    "src/Jean_Martin/id.pdf")
  = folder_name_of (watermarked_path "src/temp_watermarked" "Jean_Dupont"
                      "src/Jean_Dupont/id.pdf").
Proof.
  destruct (group_label_is_folder_up_to_underscore "src/temp_watermarked"
              "Jean_Dupont" "src/Jean_Dupont/id.pdf" eq_refl)
    as (Hlabel & _ & Hshared).
  split; [reflexivity |]. split; [exact Hlabel |].
  apply Hshared; reflexivity.
Defined.



(** X14 on three paths given in the reverse order of their names. *)
Lemma sorted_paths_have_one_run_per_group :
  let sorted :=
    Py.sorted_by Path.name
      ["t/Bob_payslip_watermarked.pdf"; "t/Al_lost_watermarked.pdf";
       "t/Al_id_watermarked.pdf"] in
  sorted = ["t/Al_id_watermarked.pdf"; "t/Al_lost_watermarked.pdf";
            "t/Bob_payslip_watermarked.pdf"] /\
  folder <$> (analyze_documents watermarked_files sorted).1 = ["Al"; "Bob"] /\
  NoDup (folder
           <$> run_starts (analyze_documents watermarked_files sorted).1).
Proof.
  cbv zeta.
  destruct (sorted_names_give_one_run_per_group watermarked_files
              ["t/Bob_payslip_watermarked.pdf"; "t/Al_lost_watermarked.pdf";
               "t/Al_id_watermarked.pdf"])
    as (Hlabels & _ & Hruns).
  - repeat constructor.
  - split; [vm_compute; reflexivity |]. split; [| exact Hruns].
    rewrite Hlabels. vm_compute. reflexivity.
Defined.



